(* ===== verification/_CoqProject ===== *)
-Q . S2P
Prelude.v
PyFloat.v
GraphBuilder.v
Keyframes.v
Schedule.v
LazyTextEncode.v
LazyLoraLoader.v
Partition.v
HookChains.v
HandlerOutput.v
Registry.v
HookOutput.v
Reachability.v
