(* ===== verification/Prelude.v ===== *)
(** * A verified model of comfyui-prompt-control's lazy graph compilers

    The repository file [src/prompt_control/nodes_lazy.py] defines two
    ComfyUI nodes that compile a prompt schedule into a subgraph which the
    host splices into its execution graph ("lazy expansion"):

    - [PCLazyTextEncode.apply] (lines 145-175) turns a list of
      [(end_pct, {"prompt": p})] segments into one text-encode node and one
      [ConditioningSetTimestepRange] node per segment, folded left to right
      through [ConditioningCombine] nodes;
    - [PCLazyLoraLoader.apply] (lines 31-128) splits the LoRAs of a
      consolidated schedule into static ones (the same weights in every
      segment, chained through [LoraLoader] nodes) and dynamic ones (one
      [CreateHookLora] node per key [lora-weight-weight_clip] with a chain
      of [CreateHookKeyframe] nodes), wraps each chain in a
      [SetHookKeyframes] node, combines the hooks and optionally applies
      them to the clip with [SetClipHooks].

    Both compilers talk to ComfyUI's [GraphBuilder] (node creation by class
    name, [set_input], [get_input], [out], [finalize]); the LoRA compiler
    also calls the schedule helpers [consolidate_schedule] and
    [find_nonscheduled_loras] and the resolver [lora_name_to_file], the text
    compiler the annotation extractor [get_function].

    ** Layout of the development (files in dependency order)

    - [Prelude] (this file): the exception-and-state monad [PyM] in which
      Python code that mutates a builder and may raise is written, with
      stdpp's [x ← m; k] notation; the program logic on it ([keeps] for
      store invariants, [hoare] triples, [never_raises]); Python's
      insertion-ordered [dict] as the association list [odict] with
      [dget], [dset], [ddel]; the hint database [pc] and shared tactics.
    - [PyFloat]: Python floats as fixed-point decimals ([Z] in units of
      10^-4) with Python's [==], [<], [>] and [str()] ([py_float_repr]), a
      parser [parse_float] and the round trip between them, which makes
      hook keys of dash-free names injective.
    - [GraphBuilder]: the store of ComfyUI's [GraphBuilder] (ordered node
      table, id counter, prefix), its operations [gb_node], [set_input],
      [get_input], [out], [finalize], the well-formedness invariant
      (ids are 1..n in creation order, every link points to an older node)
      and reachability [reaches] of nodes from output values.
    - [Keyframes]: the host's meaning of a chain of [CreateHookKeyframe]
      nodes (ComfyUI's [HookKeyframeGroup], modelled from the spec): the
      chain [kf_chain] read along [prev_hook_kf] links, the strength
      [strength_at] it assigns to a percent, and the chain shapes
      ([chain_shape]) that never switch a LoRA off.
    - [Schedule]: LoRA weight records, consolidated schedules and their
      tiling invariant, [find_nonscheduled_loras] (modelled from the spec:
      its code is not under src/), and the interfaces of the external
      collaborators as type classes ([LoraResolver], [FunctionExtractor],
      [ScheduleSource]).
    - [LazyTextEncode]: [PCLazyTextEncode.apply] as a [PyM] program
      ([encode_segment], [encode_loop], [conditioning_fold],
      [encode_schedule]), a closed-form description of the graph it emits
      ([text_graph_spec]) and the theorems about tiling, node counts and
      ranges.
    - [LazyLoraLoader]: [PCLazyLoraLoader.apply] as a [PyM] program split
      along the code's loops (static loaders [static_loop], keyframe loop
      [hook_entry] / [activation_keyframe] / [hook_step] / [segment_loop] /
      [schedule_loop], hook wrapping [wrap_hooks], combination
      [combine_hooks], clip hooks [clip_hooks]), with the theorems about
      keys, keyframe reuse and combination.
    - [Partition]: how the LoRA compiler treats names the resolver cannot
      find and LoRAs the partitioner makes static: the run equals the run
      on the schedule with those names removed.
    - [HookChains]: one step of the keyframe loop in closed form, an
      abstract per-key keyframe schedule ([abs_schedule]) and the
      refinement of it by [schedule_loop] ([table_refines]); from it, that
      every emitted chain never switches its LoRA off and that every
      scheduled LoRA gets a hook; and what a key collision does to a step
      ([hook_step_key_collision]).
    - [HandlerOutput]: exactly when [PCLazyTextEncode.apply] raises, and
      that [PCLazyLoraLoader.apply] raises only what the parser raises;
      the store invariant [ids_wf] (distinct ids below the counter); the
      Section [builder_programs] shows once that a store property kept by
      [graph.node] and [set_input] holds after every run of either
      compiler.
    - [Registry]: the node classes as data ([INPUT_TYPES],
      [RETURN_TYPES], [OUTPUT_TOOLTIPS], [CATEGORY], [FUNCTION],
      [NODE_CLASS_MAPPINGS], [NODE_DISPLAY_NAME_MAPPINGS]) with the socket
      type of every link ([link_type]); both [apply] results have the
      declared return types.
    - [HookOutput]: the composition of the keyframe loop with the wrapping,
      combination and clip-hook stages: every [SetHookKeyframes] wrapper
      the LoRA compiler emits carries a chain that never switches off.
    - [Reachability]: an executable closure [reachable] of the nodes the
      host executes from the returned values (sound and complete for
      [reaches]); every node of the text graph is reachable, while the
      LoRA graph can hold [SetHookKeyframes] wrappers nobody consumes.

    ** What the theorems show

    - Functional behaviour and closed forms of both compilers
      ([encode_schedule_spec], [combine_hooks_first_only],
      [activation_keyframe_fresh]) and the defects they expose: only the
      first hook is combined (so other wrappers are orphans,
      [lora_graph_orphan_wrapper]), the keyframe reuse test never fires
      ([lora_graph_no_start_pct]), and two LoRAs whose keys collide share
      one hook node, the second never being loaded
      ([hook_step_key_collision]).
    - Invariants of the builder store kept by every operation ([keeps]):
      no ["start_pct"] input, distinct ids below the counter, typed links,
      and for the keyframe loop [store_ok] with [table_refines].
    - Refinement: [schedule_loop] implements [abs_schedule]; the abstract
      chains have [chain_shape], so strength 1.0 once reached is kept, in
      the table ([schedule_loop_never_off]) and in every emitted wrapper
      ([lora_apply_wrappers_never_off]).
    - Equivalences: unresolved names and static LoRAs behave as if absent
      from the dynamic part of the schedule ([lora_graph_resolver_failure],
      [static_promotion]).
    - Errors: the text node raises the parser's exception, or
      [IndexError] exactly on an empty schedule or a malformed annotation
      ([text_apply_error]).
    - Typing: the results match [RETURN_TYPES] ([lora_apply_typed],
      [text_apply_typed]).
    - Round trips and bounds: keys of dash-free names determine the LoRA
      and its weights ([key_inj]), range nodes tile [[0, 1)], and a
      schedule of [n] segments gives [3n - 1] nodes.

    ** Bounds and fuel

    Floats are decimals with at most four fractional digits and magnitude
    below 10^11: on that domain Python's [repr] prints exactly the decimal
    that [py_float_repr] prints and comparisons are exact.  The loops of
    the code are structural recursion over the schedule, so they need no
    fuel.  The host's walk along [prev_hook_kf] links, [kf_chain], uses
    [kf + 1] steps of fuel from node [kf]: every link of a well-formed
    store points to an older node, so the walk ends within that many steps
    and more fuel gives the same chain ([kf_chain_fuel_enough]).  The
    reachability closure [reachable] runs [length (nodes g)] rounds of
    breadth-first expansion, one per node of the store; it is always
    sound, and the executable check [closed] certifies that the rounds
    reached the fixed point, which [reachable_spec] turns into
    completeness (the concrete graphs of the theorems are checked by
    evaluation).

    ** Not modelled

    The schedule parser [parse_prompt_schedules] and [consolidate_schedule]
    are imported from outside src/: the class [ScheduleSource] gives
    their output, or the exception ([ParseError]) the parser raises,
    which both [apply] methods propagate; the resolver
    [lora_name_to_file] and the annotation extractor [get_function] are
    file-system and prompt-syntax code outside src/, modelled as the
    interfaces [LoraResolver] and [FunctionExtractor] only; [log.info]
    calls have no effect on the graph; the execution of the emitted graph
    by the host is modelled only through [Keyframes] and [reaches]. *)

From stdpp Require Import base list strings decidable sets.

(** * Python exceptions and the builder monad *)

(** The exceptions the modelled code can raise. *)
Inductive exn :=
| IndexError
| KeyError
| ParseError.

#[export] Instance exn_eq_dec : EqDecision exn.
Proof. solve_decision. Defined.

(** A computation over a mutable store [S] that may raise: the shape of a
    Python method that mutates a builder object and may throw. *)
Definition PyM (S A : Type) : Type := S -> exn + (A * S).

#[export] Instance pym_ret S : MRet (PyM S) := fun A a s => inr (a, s).
#[export] Instance pym_bind S : MBind (PyM S) := fun A B k m s =>
  match m s with inl e => inl e | inr (a, s') => k a s' end.

Definition raise {S A} (e : exn) : PyM S A := fun _ => inl e.

(** A pure step that may raise, inside the monad. *)
Definition lift_exn {S A} (r : exn + A) : PyM S A := fun s =>
  match r with inl e => inl e | inr a => inr (a, s) end.

(** Python's [lst[i]] on a list: [IndexError] out of range. *)
Definition py_index {S A} (l : list A) (i : nat) : PyM S A :=
  match l !! i with Some x => mret x | None => raise IndexError end.

Section monad_laws.
Context {S A B : Type}.

Lemma pym_bind_ret_l (a : A) (k : A -> PyM S B) s :
  (mret a ≫= k) s = k a s.
Proof. reflexivity. Qed.

Lemma pym_bind_inr (m : PyM S A) (k : A -> PyM S B) s a s' :
  m s = inr (a, s') -> (m ≫= k) s = k a s'.
Proof. intros H. cbv [mbind pym_bind]. by rewrite H. Qed.

Lemma pym_bind_assoc {C} (m : PyM S A) (f : A -> PyM S B) (k : B -> PyM S C) s :
  ((m ≫= f) ≫= k) s = (m ≫= (fun a => f a ≫= k)) s.
Proof. cbv [mbind pym_bind]. by destruct (m s) as [|[]]. Qed.

Lemma pym_bind_same (m m' : PyM S A) (k : A -> PyM S B) s :
  m s = m' s -> (m ≫= k) s = (m' ≫= k) s.
Proof. intros H. cbv [mbind pym_bind]. by rewrite H. Qed.

Lemma pym_bind_inl (m : PyM S A) (k : A -> PyM S B) s e :
  m s = inl e -> (m ≫= k) s = inl e.
Proof. intros H. cbv [mbind pym_bind]. by rewrite H. Qed.

(** Binds of pointwise equal programs are pointwise equal. *)
Lemma pym_bind_cong (m m' : PyM S A) (k k' : A -> PyM S B) s :
  (forall s, m s = m' s) -> (forall a s, k a s = k' a s) -> (m ≫= k) s = (m' ≫= k') s.
Proof. intros Hm Hk. cbv [mbind pym_bind]. rewrite Hm. destruct (m' s) as [|[]]; auto. Qed.

(** A successful bind ran both halves successfully. *)
Lemma pym_bind_inr_inv (m : PyM S A) (k : A -> PyM S B) s b s'' :
  (m ≫= k) s = inr (b, s'') -> exists a s', m s = inr (a, s') /\ k a s' = inr (b, s'').
Proof. cbv [mbind pym_bind]. destruct (m s) as [|[a s']]; [done|]. eauto. Qed.
End monad_laws.

(** A program preserves a property of the store when every successful run
    from a store that has it ends in a store that has it. *)
Definition keeps {S A} (P : S -> Prop) (m : PyM S A) : Prop :=
  forall s a s', P s -> m s = inr (a, s') -> P s'.

Section keeps.
Context {S : Type} (P : S -> Prop).

Lemma keeps_ret {A} (a : A) : keeps P (mret a).
Proof. intros s a' s' Hs [= _ <-]. done. Qed.

Lemma keeps_bind {A B} (m : PyM S A) (k : A -> PyM S B) :
  keeps P m -> (forall a, keeps P (k a)) -> keeps P (m ≫= k).
Proof.
  intros Hm Hk s b s'' Hs. cbv [mbind pym_bind].
  destruct (m s) as [e|[a s']] eqn:E; [done|]. intros Hk'. eapply Hk; [eapply Hm|]; eauto.
Qed.

Lemma keeps_lift_exn {A} (r : exn + A) : keeps P (lift_exn r).
Proof. intros s a s' Hs. destruct r; [done|]. intros [= _ <-]. done. Qed.

Lemma keeps_raise {A} (e : exn) : keeps (A:=A) P (raise e).
Proof. done. Qed.
End keeps.

(** Hoare triples on [PyM]: every successful run from a store satisfying
    [P] returns a value and a store satisfying [Q]. *)
Definition hoare {S A} (P : S -> Prop) (m : PyM S A) (Q : A -> S -> Prop) : Prop :=
  forall s a s', P s -> m s = inr (a, s') -> Q a s'.

Section hoare.
Context {S : Type}.

Lemma hoare_ret {A} (P : S -> Prop) (Q : A -> S -> Prop) a :
  (forall s, P s -> Q a s) -> hoare P (mret a) Q.
Proof. intros H s a' s' Hs [= <- <-]. auto. Qed.

Lemma hoare_bind {A B} P (R : A -> S -> Prop) (Q : B -> S -> Prop) (m : PyM S A) (k : A -> PyM S B) :
  hoare P m R -> (forall a, hoare (R a) (k a) Q) -> hoare P (m ≫= k) Q.
Proof.
  intros Hm Hk s b s'' Hs. cbv [mbind pym_bind].
  destruct (m s) as [e|[a s']] eqn:E; [done|]. eapply Hk, Hm; eauto.
Qed.

Lemma hoare_weaken {A} (P P' : S -> Prop) (Q Q' : A -> S -> Prop) m :
  hoare P' m Q' -> (forall s, P s -> P' s) -> (forall a s, Q' a s -> Q a s) -> hoare P m Q.
Proof. intros H HP HQ s a s' Hs Hm. eauto. Qed.

Lemma hoare_pre {A} (P' P : S -> Prop) (Q : A -> S -> Prop) m :
  hoare P' m Q -> (forall s, P s -> P' s) -> hoare P m Q.
Proof. intros H HP. eapply hoare_weaken; eauto. Qed.

Lemma hoare_bind_ret {A B} P (Q : B -> S -> Prop) (a : A) (k : A -> PyM S B) :
  hoare P (k a) Q -> hoare P (mret a ≫= k) Q.
Proof. intros H s b s'' Hs. rewrite pym_bind_ret_l. eauto. Qed.

Lemma hoare_bind_raise {A B} P (Q : B -> S -> Prop) e (k : A -> PyM S B) :
  hoare P (raise e ≫= k) Q.
Proof. by intros s b s'' _. Qed.

Lemma hoare_keeps {A} (P : S -> Prop) (m : PyM S A) : keeps P m -> hoare P m (fun _ => P).
Proof. done. Qed.

(** A step that keeps the precondition. *)
Lemma hoare_bind_keeps {A B} P (Q : B -> S -> Prop) (m : PyM S A) (k : A -> PyM S B) :
  keeps P m -> (forall a, hoare P (k a) Q) -> hoare P (m ≫= k) Q.
Proof. intros Hm Hk. eapply hoare_bind; [apply hoare_keeps, Hm|exact Hk]. Qed.

Lemma keeps_and {A} (P Q : S -> Prop) (m : PyM S A) :
  keeps P m -> keeps Q m -> keeps (fun s => P s /\ Q s) m.
Proof. intros HP HQ s a s' [] Hm. split; eauto. Qed.

Lemma keeps_const {A} (C : Prop) (m : PyM S A) : keeps (fun _ => C) m.
Proof. by intros s a s' ?. Qed.
End hoare.

(** A program that raises on no store. *)
Definition never_raises {S A} (m : PyM S A) : Prop := forall s, exists a s', m s = inr (a, s').

Section never_raises.
Context {S : Type}.

Lemma never_raises_ret {A} (a : A) : never_raises (S:=S) (mret a).
Proof. intros s. by exists a, s. Qed.

Lemma never_raises_bind {A B} (m : PyM S A) (k : A -> PyM S B) :
  never_raises m -> (forall a, never_raises (k a)) -> never_raises (m ≫= k).
Proof.
  intros Hm Hk s. destruct (Hm s) as (a & s' & E).
  rewrite (pym_bind_inr _ _ _ _ _ E). apply Hk.
Qed.
End never_raises.

(** * Python dicts: insertion-ordered association lists

    A Python [dict] iterates in insertion order, and assigning to a key
    that is present keeps its position; [del] removes the key. *)

Definition odict (K V : Type) : Type := list (K * V).

Section odict.
Context {K V : Type} `{EqDecision K}.

(** [d.get(k)] *)
Fixpoint dget (k : K) (d : odict K V) : option V :=
  match d with
  | [] => None
  | (k', v) :: d' => if decide (k = k') then Some v else dget k d'
  end.

(** [d[k] = v] *)
Fixpoint dset (k : K) (v : V) (d : odict K V) : odict K V :=
  match d with
  | [] => [(k, v)]
  | (k', v') :: d' =>
      if decide (k = k') then (k, v) :: d' else (k', v') :: dset k v d'
  end.

(** [del d[k]] when present, nothing otherwise. *)
Fixpoint ddel (k : K) (d : odict K V) : odict K V :=
  match d with
  | [] => []
  | (k', v') :: d' => if decide (k = k') then d' else (k', v') :: ddel k d'
  end.

Definition dkeys (d : odict K V) : list K := map fst d.
Definition dvalues (d : odict K V) : list V := map snd d.

Lemma dget_dset_eq k v d : dget k (dset k v d) = Some v.
Proof.
  induction d as [|[k' v'] d IH]; simpl; [by rewrite decide_True|].
  case_decide; simpl; [by rewrite decide_True|].
  by rewrite decide_False.
Qed.

Lemma dget_dset_ne k k' v d : k' ≠ k -> dget k' (dset k v d) = dget k' d.
Proof.
  intros Hne. induction d as [|[k'' v'] d IH]; simpl.
  - by rewrite decide_False.
  - repeat (case_decide; simpl; subst; try congruence).
Qed.

Lemma dget_ddel_ne k k' d : k' ≠ k -> dget k' (ddel k d) = dget k' d.
Proof.
  intros Hne. induction d as [|[k'' v'] d IH]; simpl; [done|].
  repeat (case_decide; simpl; subst; try congruence).
Qed.

Lemma dget_Some_In k v d : dget k d = Some v -> In (k, v) d.
Proof.
  induction d as [|[k' v'] d IH]; simpl; [done|].
  case_decide; [intros [= ->]; subst; by left | intros; right; auto].
Qed.

Lemma dget_None_keys k d : dget k d = None <-> k ∉ dkeys d.
Proof.
  induction d as [|[k' v'] d IH]; simpl; [split; [intros _; apply not_elem_of_nil|done]|].
  rewrite not_elem_of_cons. case_decide; subst; [naive_solver|]. rewrite IH. naive_solver.
Qed.

Lemma dkeys_dset_in k v d : k ∈ dkeys d -> dkeys (dset k v d) = dkeys d.
Proof.
  induction d as [|[k' v'] d IH]; simpl; [set_solver|].
  rewrite elem_of_cons. case_decide; subst; simpl; [done|].
  intros [->|Hin]; [done|]. by rewrite IH.
Qed.

Lemma dkeys_dset_notin k v d : k ∉ dkeys d -> dkeys (dset k v d) = dkeys d ++ [k].
Proof.
  induction d as [|[k' v'] d IH]; simpl; [done|].
  rewrite elem_of_cons. case_decide; subst; simpl; [naive_solver|].
  intros Hn. rewrite IH; naive_solver.
Qed.

Lemma length_dset_in k v d : k ∈ dkeys d -> length (dset k v d) = length d.
Proof.
  intros H. rewrite <- !(length_map fst). by apply (f_equal length), dkeys_dset_in.
Qed.

Lemma length_dset_notin k v d : k ∉ dkeys d -> length (dset k v d) = S (length d).
Proof.
  intros H. rewrite <- !(length_map fst). fold (dkeys (dset k v d)) (dkeys d).
  rewrite dkeys_dset_notin, length_app by done. simpl. lia.
Qed.

Lemma dget_NoDup_elem k v d : NoDup (dkeys d) -> (k, v) ∈ d -> dget k d = Some v.
Proof.
  induction d as [|[k' v'] d IH]; simpl; [by intros _ ?%elem_of_nil|].
  unfold dkeys. simpl. intros [Hk Hnd]%NoDup_cons [[= -> ->]|Hin]%elem_of_cons; [by rewrite decide_True|].
  rewrite decide_False; [by apply IH|]. intros ->. apply Hk, list_elem_of_fmap. by exists (k', v).
Qed.

Lemma dset_NoDup k v d : NoDup (dkeys d) -> NoDup (dkeys (dset k v d)).
Proof.
  intros Hnd. destruct (decide (k ∈ dkeys d)).
  - by rewrite dkeys_dset_in.
  - rewrite dkeys_dset_notin by done. apply NoDup_app; split; [done|].
    split; [set_solver|]. apply NoDup_singleton.
Qed.
End odict.

(** * Strings *)

(** stdpp makes [String.append] opaque to [simpl]; these are its equations. *)
Lemma str_app_cons a (s t : string) : String a s +:+ t = String a (s +:+ t).
Proof. reflexivity. Qed.

Lemma str_app_empty (t : string) : EmptyString +:+ t = t.
Proof. reflexivity. Qed.

Lemma str_app_assoc (s1 s2 s3 : string) : (s1 +:+ s2) +:+ s3 = s1 +:+ s2 +:+ s3.
Proof. induction s1 as [|a s1 IH]; [done|]. rewrite !str_app_cons. by f_equal. Qed.

Lemma str_app_nil (s : string) : s +:+ EmptyString = s.
Proof. induction s as [|a s IH]; [done|]. rewrite str_app_cons. by f_equal. Qed.

Lemma str_app_inj_l (p s t : string) : p +:+ s = p +:+ t -> s = t.
Proof. induction p as [|a p IH]; [done|]. rewrite !str_app_cons. intros [= H]. auto. Qed.

(** * Automation shared by the development *)

Create HintDb pc discriminated.
Create Rewrite HintDb pc_rw.
#[export] Hint Resolve dget_dset_eq dset_NoDup keeps_ret keeps_lift_exn keeps_raise never_raises_ret keeps_and keeps_const : pc.
#[export] Hint Rewrite @dget_dset_eq str_app_cons str_app_empty str_app_assoc : pc_rw.

(** Split a [keeps] goal along the program's binds, matches and ifs. *)
Ltac keeps_split :=
  repeat first
    [ apply keeps_bind; [|intros ?]
    | progress cbn beta iota
    | match goal with
      | |- keeps _ (match ?x with _ => _ end) => destruct x
      | |- keeps _ (if ?b then _ else _) => destruct b
      end
    | solve [eauto with pc] ].

(** Split a [never_raises] goal the same way. *)
Ltac total_split :=
  repeat first
    [ apply never_raises_bind; [|intros ?]
    | progress cbn beta iota
    | match goal with
      | |- never_raises (match ?x with _ => _ end) => destruct x
      | |- never_raises (if ?b then _ else _) => destruct b
      end
    | solve [eauto with pc] ].

(** Run a [PyM] bind whose first computation is known to succeed or fail. *)
Ltac pym_step :=
  first [ erewrite pym_bind_inr by eassumption
        | erewrite pym_bind_inl by eassumption
        | rewrite pym_bind_ret_l ].
