(* ===== verification/PyFloat.v ===== *)
(** Python floats as the code uses them: schedule percentages and LoRA
    weights are compared ([==], [<], [>]) and printed with [str()] inside
    the f-string key of [nodes_lazy.py] line 54.  A float is modelled as a
    fixed-point decimal: [x : Z] stands for [x / 10^4].  For decimals with
    at most four fractional digits and magnitude below 10^11 (at most 15
    significant digits, so the nearest double prints back as the same
    decimal) Python's [repr] is exactly [py_float_repr] below: the integer
    part, a dot, and the fractional digits without trailing zeros but at
    least one digit ([1.0], [0.25], [-0.5]). *)

From stdpp Require Import base list strings decidable.
From Stdlib Require Import ZArith Ascii DecimalString DecimalN.
From S2P Require Import Prelude.

Local Open Scope string_scope.
Local Open Scope list_scope.
Local Open Scope Z_scope.

Module PyFloat.

(** A float in units of 10^-4. *)
Definition float := Z.
Definition scale : Z := 10000.

(** Python's [==], [<] and [>] on floats. *)
Definition py_eq (x y : float) : bool := Z.eqb x y.
Definition py_lt (x y : float) : bool := Z.ltb x y.
Definition py_gt (x y : float) : bool := Z.ltb y x.

(** * Printing: [str(x)] *)

Definition digit_char (d : Z) : ascii := ascii_of_nat (48 + Z.to_nat d)%nat.

(** [str(n)] for a non-negative integer: decimal without leading zeros. *)
Definition int_str (n : Z) : string :=
  NilEmpty.string_of_uint (N.to_uint (Z.to_N n)).

(** The four fractional digits of [f] in [0, 9999]. *)
Definition frac_digits (f : Z) : list Z :=
  [f / 1000; (f / 100) mod 10; (f / 10) mod 10; f mod 10].

Fixpoint drop_zeros (l : list Z) : list Z :=
  match l with
  | 0 :: l' => drop_zeros l'
  | _ => l
  end.

(** Trailing zeros are dropped, at least one digit is kept. *)
Definition frac_str (f : Z) : string :=
  match rev (drop_zeros (rev (frac_digits f))) with
  | [] => "0"
  | ds => String.string_of_list_ascii (map digit_char ds)
  end.

Definition py_float_repr (x : float) : string :=
  (if (x <? 0)%Z then "-" else "") +:+
  int_str (Z.abs x / scale) +:+ "." +:+ frac_str (Z.abs x mod scale).

(** * Parsing the printed form back *)

(** Split at the first occurrence of [c]. *)
Fixpoint break_at (c : ascii) (s : string) : option (string * string) :=
  match s with
  | EmptyString => None
  | String a s' =>
      if decide (a = c) then Some ("", s')
      else (fun '(l, r) => (String a l, r)) <$> break_at c s'
  end.

Definition parse_uint (s : string) : option Z :=
  (fun d => Z.of_N (N.of_uint d)) <$> NilEmpty.uint_of_string s.

Definition digit_of (a : ascii) : option Z :=
  let n := nat_of_ascii a in
  if decide (48 <= n < 58)%nat then Some (Z.of_nat (n - 48)) else None.

(** One to four fractional digits, read as ten-thousandths. *)
Fixpoint frac_val (s : string) (place : Z) : option Z :=
  match s with
  | EmptyString => Some 0%Z
  | String a s' =>
      if decide (place = 0)%Z then None else
      d ← digit_of a; r ← frac_val s' (place / 10); Some (d * place + r)%Z
  end.

Definition parse_frac (s : string) : option Z :=
  match s with EmptyString => None | _ => frac_val s 1000 end.

Definition split_sign (s : string) : bool * string :=
  match s with
  | String "-" s' => (true, s')
  | _ => (false, s)
  end.

Definition signed (neg : bool) (v : Z) : Z := if neg then (- v)%Z else v.

(** Parse a whole printed float. *)
Definition parse_float (s : string) : option float :=
  let '(neg, s1) := split_sign s in
  '(i, fr) ← break_at "." s1;
  ip ← parse_uint i; fp ← parse_frac fr;
  Some (signed neg (ip * scale + fp)).

(** Parse a printed float followed by a dash, returning what follows:
    the shape of the middle field of the key [lora-weight-weight_clip]. *)
Definition parse_float_dash (s : string) : option (float * string) :=
  let '(neg, s1) := split_sign s in
  '(i, r) ← break_at "." s1;
  '(fr, rest) ← break_at "-" r;
  ip ← parse_uint i; fp ← parse_frac fr;
  Some (signed neg (ip * scale + fp), rest).

(** Does [c] occur in [s]? *)
Fixpoint has_char (c : ascii) (s : string) : bool :=
  match s with
  | EmptyString => false
  | String a s' => bool_decide (a = c) || has_char c s'
  end.

Definition is_digit (a : ascii) : bool := bool_decide (48 <= nat_of_ascii a < 58)%nat.

(** * Round trip of printing and parsing *)

Lemma break_at_app c s1 s2 :
  has_char c s1 = false -> break_at c (s1 +:+ String c s2) = Some (s1, s2).
Proof.
  induction s1 as [|a s1 IH]; simpl; [by rewrite decide_True|].
  intros [Ha Hs]%orb_false_iff. rewrite bool_decide_eq_false in Ha.
  rewrite decide_False by done. by rewrite IH.
Qed.

Lemma string_of_uint_digits d c :
  has_char c (NilEmpty.string_of_uint d) = true -> is_digit c = true.
Proof.
  induction d; simpl; [done|..];
    intros [Hc%bool_decide_eq_true|Hc]%orb_true_iff; subst; auto.
Qed.

Lemma int_str_no_char n c : is_digit c = false -> has_char c (int_str n) = false.
Proof.
  intros Hc. destruct (has_char c (int_str n)) eqn:E; [|done].
  apply string_of_uint_digits in E. congruence.
Qed.

Lemma parse_uint_int_str n : (0 <= n)%Z -> parse_uint (int_str n) = Some n.
Proof.
  intros Hn. unfold parse_uint, int_str. rewrite NilEmpty.usu. simpl.
  rewrite Unsigned.of_to. f_equal. lia.
Qed.

Definition frac_check (f : Z) : bool :=
  bool_decide (parse_frac (frac_str f) = Some f) && negb (has_char "-" (frac_str f)).

Lemma frac_check_all : forallb (fun n => frac_check (Z.of_nat n)) (seq 0 (Z.to_nat scale)) = true.
Proof. vm_compute. reflexivity. Qed.

Lemma frac_str_ok f :
  (0 <= f < scale)%Z ->
  parse_frac (frac_str f) = Some f /\ has_char "-" (frac_str f) = false.
Proof.
  intros Hf. pose proof frac_check_all as Hall. rewrite forallb_forall in Hall.
  specialize (Hall (Z.to_nat f)). rewrite Z2Nat.id in Hall by lia.
  unfold frac_check in Hall.
  rewrite andb_true_iff, bool_decide_eq_true, negb_true_iff in Hall.
  apply Hall, in_seq. unfold scale in *. lia.
Qed.

Lemma split_sign_digits s t :
  has_char "-" s = false -> split_sign (s +:+ String "." t) = (false, s +:+ String "." t).
Proof. destruct s as [|a s]; simpl; [done|]. case_bool_decide; [done|]. by destruct a as [[] [] [] [] [] [] [] []]. Qed.

Lemma repr_split x t :
  split_sign (py_float_repr x +:+ t) =
  ((x <? 0)%Z, int_str (Z.abs x / scale) +:+ String "." (frac_str (Z.abs x mod scale) +:+ t)).
Proof.
  unfold py_float_repr. rewrite !str_app_assoc. destruct (x <? 0)%Z; simpl; [done|].
  apply split_sign_digits, int_str_no_char. reflexivity.
Qed.

Lemma signed_abs x : signed (x <? 0)%Z (Z.abs x / scale * scale + Z.abs x mod scale) = x.
Proof.
  rewrite Z.mul_comm, <- Z.div_mod by (unfold scale; lia).
  unfold signed. destruct (Z.ltb_spec x 0); lia.
Qed.

Lemma frac_bound x : (0 <= Z.abs x mod scale < scale)%Z.
Proof. apply Z.mod_pos_bound. unfold scale. lia. Qed.

Lemma int_part_nonneg x : (0 <= Z.abs x / scale)%Z.
Proof. apply Z.div_pos; unfold scale; lia. Qed.

(** Reading a printed float: the integer part, the dot and the digits. *)
Lemma parse_float_py_float_repr x : parse_float (py_float_repr x) = Some x.
Proof.
  unfold parse_float. rewrite <- (str_app_nil (py_float_repr x)), repr_split, str_app_nil.
  rewrite break_at_app by (apply int_str_no_char; reflexivity). simpl.
  rewrite parse_uint_int_str by apply int_part_nonneg. simpl.
  destruct (frac_str_ok _ (frac_bound x)) as [-> _]. simpl. by rewrite signed_abs.
Qed.

(** A printed float followed by a dash is read back with what follows. *)
Lemma parse_float_dash_repr x s :
  parse_float_dash (py_float_repr x +:+ String "-" s) = Some (x, s).
Proof.
  unfold parse_float_dash. rewrite repr_split.
  rewrite break_at_app by (apply int_str_no_char; reflexivity). simpl.
  destruct (frac_str_ok _ (frac_bound x)) as [Hp Hd].
  rewrite break_at_app by done. simpl.
  rewrite parse_uint_int_str by apply int_part_nonneg. simpl.
  rewrite Hp. simpl. by rewrite signed_abs.
Qed.

Corollary py_float_repr_inj x y : py_float_repr x = py_float_repr y -> x = y.
Proof. intros H. apply (f_equal parse_float) in H. rewrite !parse_float_py_float_repr in H. congruence. Qed.

End PyFloat.
