(* ===== verification/GraphBuilder.v ===== *)
(** ComfyUI's [comfy_execution.graph_utils.GraphBuilder], the graph
    construction API both compilers of [nodes_lazy.py] call.  It is not
    code of this repository, so it is modelled from the interface the spec
    describes (section 6) and from the behaviour the compilers rely on:
    [graph.node(ct)] allocates the node [prefix + str(id_gen)] and bumps
    the counter (returning the existing node if that id is taken),
    [n.set_input(k, v)] stores [v] under [k] in the node's input dict and
    deletes [k] when [v] is [None], [n.get_input(k)] is [inputs.get(k)],
    [n.out(i)] is the link [[n.id, i]], and [graph.finalize()] serializes
    every node in creation order.  Nodes are mutable objects the compiler
    keeps references to, so the model is a store: a handle is a node id
    and every write goes to the node table. *)

From stdpp Require Import base list strings decidable sets.
From Stdlib Require Import ZArith.
From S2P Require Import Prelude PyFloat.

Local Open Scope list_scope.

Module GraphBuilder.
Import PyFloat.

(** The Python values the compilers store as node inputs. *)
Inductive value :=
| VNone
| VBool (b : bool)
| VFloat (x : float)
| VStr (s : string)
| VLink (id : nat) (slot : nat)   (** [node.out(slot)] of a node of this builder *)
| VExt (id : string) (slot : nat). (** a link into the host graph (a raw link input) *)

#[export] Instance value_eq_dec : EqDecision value.
Proof. solve_decision. Defined.

(** Python's [v == x] for a stored value [v] and a float [x]
    ([None == x] is false, [True == 1.0] is true). *)
Definition value_eq_float (v : value) (x : float) : bool :=
  match v with
  | VFloat y => py_eq y x
  | VBool b => py_eq (if b then scale else 0%Z) x
  | _ => false
  end.

Record node := mk_node {
  nid : nat;
  class_type : string;
  inputs : odict string value
}.

Record graph := mk_graph {
  prefix : string;
  nodes : list node;
  id_gen : nat
}.

(** [GraphBuilder(prefix)] *)
Definition new_graph (p : string) : graph := mk_graph p [] 1.

Fixpoint find_node (ns : list node) (i : nat) : option node :=
  match ns with
  | [] => None
  | n :: ns' => if decide (nid n = i) then Some n else find_node ns' i
  end.

(** [graph.node(class_type)]: the id is the counter, the counter is bumped,
    and an existing node with that id is returned unchanged. *)
Definition gb_node (ct : string) : PyM graph nat := fun g =>
  let i := id_gen g in
  match find_node (nodes g) i with
  | Some _ => inr (i, mk_graph (prefix g) (nodes g) (S i))
  | None => inr (i, mk_graph (prefix g) (nodes g ++ [mk_node i ct []]) (S i))
  end.

(** [inputs[k] = v], or [del inputs[k]] when [v] is [None]. *)
Definition put_input (k : string) (v : value) (d : odict string value) : odict string value :=
  match v with
  | VNone => ddel k d
  | _ => dset k v d
  end.

Definition update_node (h : nat) (f : node -> node) (ns : list node) : list node :=
  map (fun n => if decide (nid n = h) then f n else n) ns.

Definition set_field (k : string) (v : value) (n : node) : node :=
  mk_node (nid n) (class_type n) (put_input k v (inputs n)).

(** [node.set_input(k, v)] on the node with handle [h]. *)
Definition set_input (h : nat) (k : string) (v : value) : PyM graph unit := fun g =>
  inr (tt, mk_graph (prefix g) (update_node h (set_field k v) (nodes g)) (id_gen g)).

(** [node.get_input(k)]: [None] when absent. *)
Definition get_input (h : nat) (k : string) : PyM graph value := fun g =>
  inr (match find_node (nodes g) h with
       | Some n => default VNone (dget k (inputs n))
       | None => VNone
       end, g).

(** [node.out(i)] *)
Definition out (h : nat) (i : nat) : value := VLink h i.

(** The id string of node [i]: [prefix + str(i)]. *)
Definition node_id_str (p : string) (i : nat) : string := p +:+ int_str (Z.of_nat i).

Definition serialize_value (p : string) (v : value) : value :=
  match v with
  | VLink i s => VExt (node_id_str p i) s
  | _ => v
  end.

(** [graph.finalize()]: [{id: {"class_type": ct, "inputs": inputs}}] in
    creation order. *)
Definition finalize (g : graph) : list (string * (string * odict string value)) :=
  map (fun n => (node_id_str (prefix g) (nid n),
                 (class_type n, map (fun '(k, v) => (k, serialize_value (prefix g) v)) (inputs n))))
      (nodes g).

(** * Queries on a graph *)

Definition count_class (ct : string) (g : graph) : nat :=
  length (filter (fun n => class_type n = ct) (nodes g)).

Definition node_input (g : graph) (i : nat) (k : string) : option value :=
  n ← find_node (nodes g) i; dget k (inputs n).

(** * Well-formedness: ids are [1 .. id_gen - 1] in creation order and
    every link of a node points to an older node of the builder. *)

Definition link_below (i : nat) (v : value) : Prop :=
  match v with
  | VLink j _ => 1 <= j < i
  | _ => True
  end.

(** Every link of a node of [ns] points to an older node. *)
Definition links_below (ns : list node) : Prop :=
  Forall (fun n => Forall (fun kv => link_below (nid n) kv.2) (inputs n)) ns.

Definition graph_wf (g : graph) : Prop :=
  map nid (nodes g) = seq 1 (pred (id_gen g)) /\ 1 <= id_gen g /\ links_below (nodes g).

(** * Reachability of nodes from output values *)

Inductive reaches (g : graph) (roots : list value) : nat -> Prop :=
| reaches_root i s :
    VLink i s ∈ roots -> reaches g roots i
| reaches_input i j n k s :
    reaches g roots j -> find_node (nodes g) j = Some n ->
    (k, VLink i s) ∈ inputs n -> reaches g roots i.

(** Every node id is below the counter: the allocation check of
    [graph.node] never finds a node. *)
Definition ids_below (g : graph) : Prop := Forall (fun n => nid n < id_gen g) (nodes g).

(** The store after [graph.node] appended [n] at the counter. *)
Definition push (n : node) (g : graph) : graph :=
  mk_graph (prefix g) (nodes g ++ [n]) (S (id_gen g)).

(** * Lemmas on the builder operations *)

Lemma find_node_app l1 l2 i :
  find_node (l1 ++ l2) i = match find_node l1 i with Some n => Some n | None => find_node l2 i end.
Proof. induction l1 as [|n l1 IH]; simpl; [done|]. case_decide; auto. Qed.

Lemma find_node_None ns i : i ∉ map nid ns -> find_node ns i = None.
Proof.
  induction ns as [|n ns IH]; simpl; [done|].
  rewrite not_elem_of_cons. intros [Hn Hns]. rewrite decide_False by congruence. auto.
Qed.

Lemma ids_below_notin g i : ids_below g -> id_gen g <= i -> i ∉ map nid (nodes g).
Proof.
  unfold ids_below. rewrite Forall_forall. intros Hb Hi (n & -> & Hn)%list_elem_of_fmap.
  specialize (Hb n Hn). lia.
Qed.

Lemma gb_node_run ct g :
  ids_below g ->
  gb_node ct g = inr (id_gen g, mk_graph (prefix g) (nodes g ++ [mk_node (id_gen g) ct []]) (S (id_gen g))).
Proof. intros Hb. unfold gb_node. by rewrite find_node_None by (apply ids_below_notin; auto). Qed.

Lemma ids_below_gb_node ct g :
  ids_below g -> ids_below (mk_graph (prefix g) (nodes g ++ [mk_node (id_gen g) ct []]) (S (id_gen g))).
Proof.
  unfold ids_below. simpl. intros Hb. apply Forall_app. split; [|repeat constructor; simpl; lia].
  eapply Forall_impl; [done|]. simpl. lia.
Qed.

Lemma ids_below_app g ns i :
  ids_below g -> Forall (fun n => nid n < i) ns -> id_gen g <= i ->
  ids_below (mk_graph (prefix g) (nodes g ++ ns) i).
Proof.
  unfold ids_below. simpl. intros Hb Hns Hi. apply Forall_app. split; [|done].
  eapply Forall_impl; [done|]. simpl. lia.
Qed.

Lemma update_node_notin h f ns : h ∉ map nid ns -> update_node h f ns = ns.
Proof.
  induction ns as [|n ns IH]; simpl; [done|].
  rewrite not_elem_of_cons. intros [Hn Hns]. rewrite decide_False by congruence. f_equal. auto.
Qed.

Lemma update_node_mid h f l1 n l2 :
  nid n = h -> h ∉ map nid l1 -> h ∉ map nid l2 ->
  update_node h f (l1 ++ n :: l2) = l1 ++ f n :: l2.
Proof.
  intros Hn H1 H2. unfold update_node at 1. rewrite map_app. simpl. rewrite decide_True by done.
  fold (update_node h f l1) (update_node h f l2).
  by rewrite !update_node_notin.
Qed.

(** No node has an input named [k]. *)
Definition no_input (k : string) (g : graph) : Prop :=
  Forall (fun n => dget k (inputs n) = None) (nodes g).

Lemma set_input_run h k v g :
  set_input h k v g = inr (tt, mk_graph (prefix g) (update_node h (set_field k v) (nodes g)) (id_gen g)).
Proof. reflexivity. Qed.

Lemma keeps_gb_node P ct :
  (forall g, P g -> P (mk_graph (prefix g) (nodes g) (S (id_gen g)))) ->
  (forall g, P g -> P (mk_graph (prefix g) (nodes g ++ [mk_node (id_gen g) ct []]) (S (id_gen g)))) ->
  keeps P (gb_node ct).
Proof.
  intros H1 H2 g i g' Hg. unfold gb_node. destruct (find_node _ _); intros [= _ <-]; auto.
Qed.

Lemma keeps_no_input_gb_node k ct : keeps (no_input k) (gb_node ct).
Proof.
  apply keeps_gb_node; unfold no_input; simpl; [done|].
  intros g Hg. apply Forall_app. split; [done|]. by repeat constructor.
Qed.

Lemma keeps_no_input_set_input k h k' v : k' ≠ k -> keeps (no_input k) (set_input h k' v).
Proof.
  intros Hne g [] g' Hg [= <-]. unfold no_input, update_node in *. simpl.
  apply Forall_fmap, (Forall_impl _ _ _ Hg). intros n Hn. simpl.
  case_decide; [|done]. simpl. unfold put_input.
  destruct v; rewrite ?dget_ddel_ne, ?dget_dset_ne; auto.
Qed.

Lemma keeps_get_input P h k : keeps P (get_input h k).
Proof. intros g a g' Hg [= _ <-]. done. Qed.

Lemma find_node_elem ns i n : find_node ns i = Some n -> n ∈ ns /\ nid n = i.
Proof.
  induction ns as [|n' ns IH]; simpl; [done|].
  case_decide; [intros [= <-]; split; [left|done]|intros Hf; destruct (IH Hf); split; [right|]; done].
Qed.

(** Reading an input no node has gives [None]. *)
Lemma get_input_no_input g h k : no_input k g -> get_input h k g = inr (VNone, g).
Proof.
  intros Hg. unfold get_input. destruct (find_node (nodes g) h) as [n|] eqn:E; [|done].
  apply find_node_elem in E as [Hn _]. unfold no_input in Hg. rewrite Forall_forall in Hg.
  by rewrite Hg.
Qed.

Lemma no_input_app k g l i :
  no_input k g -> Forall (fun n => dget k (inputs n) = None) l ->
  no_input k (mk_graph (prefix g) (nodes g ++ l) i).
Proof. unfold no_input. simpl. intros. by apply Forall_app. Qed.

(** The builder's operations never raise. *)
Lemma never_raises_gb_node ct : never_raises (gb_node ct).
Proof. intros g. unfold gb_node. destruct (find_node _ _); eauto. Qed.

Lemma never_raises_set_input h k v : never_raises (set_input h k v).
Proof. intros g. eauto. Qed.

Lemma never_raises_get_input h k : never_raises (get_input h k).
Proof. intros g. eauto. Qed.

#[export] Hint Resolve keeps_no_input_gb_node keeps_get_input : pc.
#[export] Hint Resolve never_raises_gb_node never_raises_set_input never_raises_get_input : pc.
#[export] Hint Extern 1 (keeps (no_input _) (set_input _ _ _)) =>
  apply keeps_no_input_set_input; discriminate : pc.

Lemma update_node_cons_eq h f n l :
  nid n = h -> update_node h f (n :: l) = f n :: update_node h f l.
Proof. intros Hn. unfold update_node. simpl. by rewrite decide_True. Qed.

Lemma update_node_cons_ne h f n l :
  nid n ≠ h -> update_node h f (n :: l) = n :: update_node h f l.
Proof. intros Hn. unfold update_node. simpl. by rewrite decide_False. Qed.

Lemma update_node_nil h f : update_node h f [] = [].
Proof. reflexivity. Qed.

Lemma update_node_app_notin h f l1 l2 :
  h ∉ map nid l1 -> update_node h f (l1 ++ l2) = l1 ++ update_node h f l2.
Proof. intros H. unfold update_node at 1. rewrite map_app. fold (update_node h f l1). by rewrite update_node_notin. Qed.

(** Allocation and input writes on the node allocated last, in terms of
    [push]. *)
Lemma ids_below_push n g : ids_below g -> nid n = id_gen g -> ids_below (push n g).
Proof.
  unfold ids_below, push. simpl. intros Hb Hn. apply Forall_app. split; [|constructor; [lia|constructor]].
  eapply Forall_impl; [done|]. simpl. lia.
Qed.

Lemma gb_node_push ct g : ids_below g -> gb_node ct g = inr (id_gen g, push (mk_node (id_gen g) ct []) g).
Proof. apply gb_node_run. Qed.

Lemma set_input_push ct ins k v g :
  ids_below g ->
  set_input (id_gen g) k v (push (mk_node (id_gen g) ct ins) g) =
  inr (tt, push (mk_node (id_gen g) ct (put_input k v ins)) g).
Proof.
  intros Hb. unfold set_input, push. simpl.
  rewrite update_node_app_notin by (apply (ids_below_notin _ _ Hb); lia).
  by rewrite update_node_cons_eq, update_node_nil.
Qed.

Lemma no_input_push k n g : no_input k g -> dget k (inputs n) = None -> no_input k (push n g).
Proof. intros. by apply no_input_app; [|repeat constructor]. Qed.

Lemma find_node_cons_eq n l i : nid n = i -> find_node (n :: l) i = Some n.
Proof. intros Hn. simpl. by rewrite decide_True. Qed.

Lemma find_node_cons_ne n l i : nid n ≠ i -> find_node (n :: l) i = find_node l i.
Proof. intros Hn. simpl. by rewrite decide_False. Qed.

Lemma find_node_update_node h k v ns i :
  find_node (update_node h (set_field k v) ns) i =
  (fun n => if decide (nid n = h) then set_field k v n else n) <$> find_node ns i.
Proof.
  induction ns as [|n ns IH]; [done|]. unfold update_node in *. simpl.
  destruct (decide (nid n = h)) as [Hh|Hh]; simpl;
    destruct (decide (nid n = i)); simpl; try rewrite decide_True by done;
    try rewrite decide_False by done; auto.
Qed.

(** Writing input [k] leaves every other input as it was. *)
Lemma dget_set_field_ne k k' v n : k' ≠ k -> dget k' (inputs (set_field k v n)) = dget k' (inputs n).
Proof. intros Hne. unfold set_field, put_input. simpl. destruct v; by rewrite ?dget_ddel_ne, ?dget_dset_ne. Qed.

(** With distinct ids every node is found by its id. *)
Lemma find_node_NoDup ns n : NoDup (map nid ns) -> n ∈ ns -> find_node ns (nid n) = Some n.
Proof.
  induction ns as [|n' ns IH]; [by intros _ ?%elem_of_nil|]. simpl.
  intros [Hn' Hnd]%NoDup_cons [->|Hin]%elem_of_cons; [by rewrite decide_True|].
  rewrite decide_False; [by apply IH|]. intros Heq. apply Hn', list_elem_of_fmap. by exists n.
Qed.

(** Nodes at or above the counter are found among the appended ones. *)
Lemma find_node_above g l i : ids_below g -> id_gen g <= i -> find_node (nodes g ++ l) i = find_node l i.
Proof. intros Hb Hi. rewrite find_node_app, find_node_None; [done|]. by apply ids_below_notin. Qed.

(** Allocate a node in a store whose new nodes lie above the old counter. *)
Ltac gb_fresh Hb :=
  rewrite gb_node_run by
    (first [exact Hb | apply ids_below_app; [exact Hb | repeat constructor; simpl; lia | simpl; lia]]).

(** Evaluate the updates of the nodes created last, whose ids are above
    every id of the prefix [l] of the node list. *)
Ltac update_fresh_simpl Hb :=
  repeat (rewrite update_node_app_notin by (apply (ids_below_notin _ _ Hb); simpl; lia));
  unfold update_node; simpl;
  repeat (case_decide; simpl in *; try (exfalso; lia)).

(** Evaluate a builder program on a store [nodes g ++ l] one bind at a
    time: allocations, input writes and reads, and the node updates. *)
Ltac pym_eval_with Hb extra :=
  repeat first
    [ progress cbn beta iota
    | progress cbn [nodes prefix id_gen]
    | rewrite <- !app_assoc
    | rewrite pym_bind_assoc
    | extra
    | rewrite pym_bind_ret_l
    | erewrite pym_bind_inr by
        (apply gb_node_run;
         first [exact Hb | apply ids_below_app; [exact Hb | repeat constructor; simpl; lia | simpl; lia]])
    | erewrite pym_bind_inr by (apply set_input_run)
    | erewrite pym_bind_inr by reflexivity
    | rewrite update_node_app_notin by (apply (ids_below_notin _ _ Hb); simpl; lia)
    | rewrite update_node_cons_eq by (simpl; lia)
    | rewrite update_node_cons_ne by (simpl; lia)
    | rewrite update_node_nil
    | progress (unfold set_field; simpl) ].

Ltac pym_eval Hb := pym_eval_with Hb fail.

End GraphBuilder.
