(* ===== verification/Keyframes.v ===== *)
(** The meaning of a chain of [CreateHookKeyframe] nodes, the host-side
    semantics the LoRA compiler targets (ComfyUI's [HookKeyframeGroup],
    outside this repository; modelled from the spec's glossary: "a gate
    asserts a scalar multiplier value effective from a given progress
    fraction onward").  A keyframe node adds [(start_percent,
    strength_mult)] to a copy of the group linked by its [prev_hook_kf]
    input (inputs left unset take the node's defaults 0.0 and 1.0); the
    strength at percent [p] is the multiplier of the keyframe with the
    largest start not above [p], the later one among equal starts, and 1.0
    before the first keyframe.  The file proves the shape lemmas the
    compiler's chains are checked against: a chain whose keyframes all
    have multiplier 1.0, possibly after one leading 0.0 keyframe at 0.0,
    never turns off once on. *)

From stdpp Require Import base list strings decidable sets.
From Stdlib Require Import ZArith.
From S2P Require Import Prelude PyFloat GraphBuilder.

Local Open Scope list_scope.

Module Keyframes.
Import PyFloat GraphBuilder.

(** * Reading a chain out of the builder store *)

Definition float_input (n : node) (k : string) (dflt : float) : float :=
  match dget k (inputs n) with Some (VFloat x) => x | _ => dflt end.

(** The keyframe a [CreateHookKeyframe] node adds. *)
Definition kf_entry (n : node) : float * float :=
  (float_input n "start_percent" 0%Z, float_input n "strength_mult" scale).

(** The keyframes of the group output by node [kf], oldest first; [fuel]
    bounds the walk along [prev_hook_kf] links. *)
Fixpoint kf_chain_fuel (fuel : nat) (ns : list node) (kf : nat) : list (float * float) :=
  match fuel with
  | 0 => []
  | S f =>
      match find_node ns kf with
      | None => []
      | Some n =>
          let prev := match dget "prev_hook_kf" (inputs n) with
                      | Some (VLink j _) => kf_chain_fuel f ns j
                      | _ => []
                      end in
          prev ++ [kf_entry n]
      end
  end.

(** Every [prev_hook_kf] link points to an older node. *)
Definition prev_links_below (ns : list node) : Prop :=
  Forall (fun n => forall j s, dget "prev_hook_kf" (inputs n) = Some (VLink j s) -> j < nid n) ns.

(** Links point to older nodes, so [kf + 1] steps reach the chain's end. *)
Definition kf_chain (g : graph) (kf : nat) : list (float * float) :=
  kf_chain_fuel (S kf) (nodes g) kf.

(** * The strength a keyframe group assigns to a percent *)

Definition kf_step (p : float) (acc : option (float * float)) (kf : float * float)
    : option (float * float) :=
  let '(s, m) := kf in
  if (s <=? p)%Z then
    match acc with
    | Some (s', _) => if (s' <=? s)%Z then Some (s, m) else acc
    | None => Some (s, m)
    end
  else acc.

Definition strength_at (kfs : list (float * float)) (p : float) : float :=
  match fold_left (kf_step p) kfs None with
  | Some (_, m) => m
  | None => scale
  end.

(** The chains the compiler emits: multipliers 1.0, possibly after one
    leading 0.0 keyframe at 0.0. *)
Definition all_on (kfs : list (float * float)) : Prop := Forall (fun kf => kf.2 = scale) kfs.

Definition chain_shape (kfs : list (float * float)) : Prop :=
  all_on kfs \/ exists rest, kfs = (0%Z, 0%Z) :: rest /\ all_on rest.

(** Does a keyframe of [kfs] start in [[lo, p]]? *)
Definition starts_between (lo p : float) (kfs : list (float * float)) : bool :=
  existsb (fun kf => (lo <=? kf.1)%Z && (kf.1 <=? p)%Z) kfs.

Lemma fold_all_on_some p kfs : forall s0 m0,
  all_on kfs ->
  snd <$> fold_left (kf_step p) kfs (Some (s0, m0)) =
  Some (if starts_between s0 p kfs then scale else m0).
Proof.
  induction kfs as [|[s m] kfs IH]; intros s0 m0 Hall; simpl; [done|].
  inversion Hall as [|? ? Hm Hall']; subst. simpl in Hm; subst m.
  destruct (Z.leb_spec s p), (Z.leb_spec s0 s); simpl; rewrite IH by done;
    repeat destruct (starts_between _ _ _); simpl; try done; lia.
Qed.

Lemma fold_all_on_none p kfs :
  all_on kfs -> forall r, fold_left (kf_step p) kfs None = Some r -> r.2 = scale.
Proof.
  induction kfs as [|[s m] kfs IH]; intros Hall r; simpl; [done|].
  inversion Hall as [|? ? Hm Hall']; subst. simpl in Hm; subst m.
  destruct (Z.leb_spec s p); [|auto].
  intros Hr. pose proof (fold_all_on_some p kfs s scale Hall') as Hs.
  rewrite Hr in Hs. simpl in Hs. injection Hs as Hs. rewrite Hs. by destruct (starts_between _ _ _).
Qed.

(** A chain of 1.0 keyframes is on at every percent. *)
Lemma strength_all_on kfs p : all_on kfs -> strength_at kfs p = scale.
Proof.
  intros Hall. unfold strength_at.
  destruct (fold_left _ _ _) as [[s m]|] eqn:E; [|done].
  apply (fold_all_on_none _ _ Hall) in E. done.
Qed.

(** After a leading 0.0 keyframe at 0.0 the chain is on exactly from the
    first later keyframe on. *)
Lemma strength_leading rest p :
  all_on rest -> (0 <= p)%Z ->
  strength_at ((0%Z, 0%Z) :: rest) p = if starts_between 0%Z p rest then scale else 0%Z.
Proof.
  intros Hall Hp. unfold strength_at. simpl.
  destruct (Z.leb_spec 0 p); [|lia].
  pose proof (fold_all_on_some p rest 0%Z 0%Z Hall) as Hs.
  destruct (fold_left _ _ _) as [[s m]|]; cbv [fmap option_fmap option_map] in Hs; simpl in Hs;
    [injection Hs as Hs; exact Hs | discriminate Hs].
Qed.

Lemma starts_between_mono lo p q kfs :
  (p <= q)%Z -> starts_between lo p kfs = true -> starts_between lo q kfs = true.
Proof.
  unfold starts_between. rewrite !existsb_exists. intros Hpq (kf & Hin & Hk).
  exists kf. split; [done|]. rewrite andb_true_iff, !Z.leb_le in *. lia.
Qed.

Theorem strength_never_off kfs p q :
  chain_shape kfs -> (0 <= p <= q)%Z -> strength_at kfs p = scale -> strength_at kfs q = scale.
Proof.
  intros [Hall|(rest & -> & Hall)] Hpq; [intros _; by apply strength_all_on|].
  rewrite !strength_leading by (done || lia).
  destruct (starts_between 0%Z p rest) eqn:E; [|unfold scale; lia].
  by rewrite (starts_between_mono _ _ _ _ (proj2 Hpq) E).
Qed.

(** * Chains under the growth of the store *)

Lemma link_of_node ns n j s :
  prev_links_below ns -> n ∈ ns -> dget "prev_hook_kf" (inputs n) = Some (VLink j s) -> j < nid n.
Proof. unfold prev_links_below. rewrite Forall_forall. intros Hl Hn. by apply Hl. Qed.

Lemma links_below_prev ns : links_below ns -> prev_links_below ns.
Proof.
  unfold links_below, prev_links_below. intros Hl. eapply Forall_impl; [exact Hl|].
  intros n Hn j s Hk. rewrite Forall_forall in Hn.
  apply (Hn ("prev_hook_kf", VLink j s)), list_elem_of_In, dget_Some_In, Hk.
Qed.

(** Nodes added after [kf] do not change its chain. *)
Lemma kf_chain_fuel_app f ns l b kf :
  Forall (fun n => nid n < b) ns -> Forall (fun n => b <= nid n) l -> prev_links_below ns -> kf < b ->
  kf_chain_fuel f (ns ++ l) kf = kf_chain_fuel f ns kf.
Proof.
  intros Hns Hl Hlk. revert kf. induction f as [|f IH]; intros kf Hkf; [done|]. simpl.
  rewrite find_node_app. destruct (find_node ns kf) as [n|] eqn:E.
  - apply find_node_elem in E as [Hin Hid].
    destruct (dget "prev_hook_kf" (inputs n)) as [[]|] eqn:Ep; try done.
    rewrite IH; [done|]. pose proof (link_of_node _ _ _ _ Hlk Hin Ep). lia.
  - rewrite find_node_None; [done|]. intros (n & -> & Hn)%list_elem_of_fmap.
    rewrite Forall_forall in Hl. specialize (Hl n Hn). lia.
Qed.

(** Any fuel above [kf] walks the whole chain. *)
Lemma kf_chain_fuel_enough f1 f2 ns kf :
  prev_links_below ns -> kf < f1 -> kf < f2 -> kf_chain_fuel f1 ns kf = kf_chain_fuel f2 ns kf.
Proof.
  intros Hlk. revert f2 kf. induction f1 as [|f1 IH]; intros [|f2] kf H1 H2; try lia. simpl.
  destruct (find_node ns kf) as [n|] eqn:E; [|done].
  apply find_node_elem in E as [Hin Hid].
  destruct (dget "prev_hook_kf" (inputs n)) as [[]|] eqn:Ep; try done.
  pose proof (link_of_node _ _ _ _ Hlk Hin Ep). rewrite (IH f2); [done|lia..].
Qed.

(** One step of the walk: the chain of node [i] is the chain its
    [prev_hook_kf] link names, then its own keyframe. *)
Lemma kf_chain_node g i n :
  prev_links_below (nodes g) -> find_node (nodes g) i = Some n ->
  kf_chain g i = match dget "prev_hook_kf" (inputs n) with
                 | Some (VLink j _) => kf_chain g j
                 | _ => []
                 end ++ [kf_entry n].
Proof.
  intros Hlk E. unfold kf_chain. simpl. rewrite E.
  pose proof (find_node_elem _ _ _ E) as [Hin Hid].
  destruct (dget "prev_hook_kf" (inputs n)) as [[| | | |j sl|]|] eqn:Ep; try done.
  pose proof (link_of_node _ _ _ _ Hlk Hin Ep).
  rewrite (kf_chain_fuel_enough i (S j)); [done|done|lia..].
Qed.

(** Writing an input other than the three a chain reads leaves every
    chain as it was. *)
Lemma kf_chain_fuel_set_input f h k v ns kf :
  k ≠ "prev_hook_kf" -> k ≠ "start_percent" -> k ≠ "strength_mult" ->
  kf_chain_fuel f (update_node h (set_field k v) ns) kf = kf_chain_fuel f ns kf.
Proof.
  intros H1 H2 H3. revert kf. induction f as [|f IH]; intros kf; [done|]. simpl.
  rewrite find_node_update_node. destruct (find_node ns kf) as [n|]; [simpl|done].
  assert (Hn : forall k', k' ≠ k -> dget k' (inputs (if decide (nid n = h) then set_field k v n else n)) =
                                    dget k' (inputs n)) by (intros; case_decide; [by apply dget_set_field_ne|done]).
  unfold kf_entry, float_input. rewrite !Hn by done.
  destruct (dget "prev_hook_kf" (inputs n)) as [[]|]; rewrite ?IH; done.
Qed.

(** Appending keyframes of multiplier 1.0 keeps the shape. *)
Lemma chain_shape_app kfs r : chain_shape kfs -> all_on r -> chain_shape (kfs ++ r).
Proof.
  unfold chain_shape, all_on. intros [Hall|(rest & -> & Hall)] Hr; [left|right].
  - by apply Forall_app.
  - exists (rest ++ r). split; [done|]. by apply Forall_app.
Qed.

End Keyframes.
