(* ===== verification/Schedule.v ===== *)
(** Schedules and the collaborators of the compilers.  The schedule parser
    ([parse_prompt_schedules]), the consolidator ([consolidate_schedule]),
    the LoRA resolver ([lora_name_to_file]) and the annotation extractor
    ([get_function]) live outside src/; they are interfaces here (type
    classes the compilers' sections assume), and [find_nonscheduled_loras]
    is modelled from its contract in the spec (section 4.1).  The data
    follow the spec's data model (section 3): a consolidated schedule is an
    ordered list of [(end_pct, {lora: {"weight", "weight_clip"}})] whose
    ends increase strictly to 1.0, and a text schedule is an ordered list
    of [(end_pct, {"prompt": p})]. *)

From stdpp Require Import base list strings decidable sets.
From Stdlib Require Import ZArith.
From S2P Require Import Prelude PyFloat.

Local Open Scope list_scope.

Module Schedule.
Import PyFloat.

(** [{"weight": w, "weight_clip": wc}] *)
Record lora_info := mk_info { weight : float; weight_clip : float }.

#[export] Instance lora_info_eq_dec : EqDecision lora_info.
Proof. solve_decision. Defined.

(** The LoRAs active in one segment, in the dict's order. *)
Definition loras := odict string lora_info.

(** [consolidate_schedule(...)]: [(end_pct, loras)] per segment. *)
Definition consolidated := list (float * loras).

(** The text pipeline's [(end_pct, c)] with [c["prompt"]]. *)
Definition text_schedule := list (float * string).

(** * The tiling invariant of a schedule (spec section 3)

    Ends are strictly increasing, the first is positive and the last is
    1.0; the start of a segment is the end of the previous one (0.0 for
    the first). *)
Fixpoint ends_increasing (prev : float) (ends : list float) : bool :=
  match ends with
  | [] => true
  | e :: es => py_lt prev e && ends_increasing e es
  end.

Definition ends_wf (ends : list float) : bool :=
  ends_increasing 0%Z ends && bool_decide (last ends = Some scale).

(** The [(start, end)] ranges a schedule's segments cover. *)
Fixpoint tiles (start : float) (ends : list float) : list (float * float) :=
  match ends with
  | [] => []
  | e :: es => (start, e) :: tiles e es
  end.

(** The tiles containing [p]. *)
Definition tiles_at (p : float) (ts : list (float * float)) : list (float * float) :=
  filter (fun '(s, e) => (s <= p < e)%Z) ts.

Lemma tiles_at_cons p s e ts :
  length (tiles_at p ((s, e) :: ts)) =
  (if bool_decide (s <= p < e)%Z then 1 else 0) + length (tiles_at p ts).
Proof.
  unfold tiles_at. rewrite filter_cons.
  case_decide as Hin; case_bool_decide; cbn in Hin |- *; first [reflexivity | exfalso; lia].
Qed.

Lemma tiles_at_increasing ends : forall start p,
  ends_increasing start ends = true ->
  length (tiles_at p (tiles start ends)) =
  if bool_decide (start <= p < default start (last ends))%Z then 1 else 0.
Proof.
  induction ends as [|e es IH]; intros start p; simpl.
  - intros _. case_bool_decide; [lia|done].
  - unfold py_lt. rewrite andb_true_iff, Z.ltb_lt. intros [Hlt Hinc].
    pose proof (IH e p Hinc) as IHe. rewrite tiles_at_cons, IHe.
    assert (Hle : (e <= default e (last es))%Z).
    { clear IH IHe Hlt. revert e Hinc. induction es as [|e' es' IH']; intros e0 Hinc; [simpl; lia|].
      simpl in Hinc. apply andb_true_iff in Hinc as [He Hes]. unfold py_lt in He.
      apply Z.ltb_lt in He. specialize (IH' e' Hes). rewrite last_cons.
      destruct (last es'); simpl in *; lia. }
    rewrite last_cons. destruct (last es) as [l|]; cbn [default from_option id] in Hle |- *;
      repeat case_bool_decide; lia.
Qed.

(** * [find_nonscheduled_loras] (spec section 4.1, code not under src/)

    The LoRAs of the first segment whose weights are the same in every
    later segment; a LoRA missing from any segment is scheduled. *)
Definition find_nonscheduled_loras (sched : consolidated) : loras :=
  match sched with
  | [] => []
  | (_, first) :: rest =>
      filter (fun '(name, info) =>
                forallb (fun '(_, ls) => bool_decide (dget name ls = Some info)) rest = true)
             first
  end.

(** * Interfaces of the collaborators outside src/ *)

(** [parse_prompt_schedules] and [consolidate_schedule] composed, for the
    two pipelines.  The parser raises [ParseError] on malformed text
    (spec sections 6-7), which [apply] does not catch: each field returns
    the exception or the schedule. *)
Class ScheduleSource := {
  text_segments : string -> exn + text_schedule;
  consolidated_loras : string -> exn + consolidated
}.

(** [utils.lora_name_to_file]: [None] when no file backs the name. *)
Class LoraResolver := lora_name_to_file : string -> option string.

(** [prompts.get_function(text, "NODE", defaults)]: the text without the
    annotation and the argument lists of the [NODE(...)] calls found. *)
Class FunctionExtractor :=
  get_function : string -> string -> list string -> string * list (list string).

End Schedule.
