(* ===== verification/LazyTextEncode.v ===== *)
(** [PCLazyTextEncode.apply] ([nodes_lazy.py] lines 145-175): one content
    node (a [PCTextEncode] by default, or the class and parameter named by
    a [NODE(...)] annotation) and one [ConditioningSetTimestepRange] node
    per schedule segment, restricted to [[start_pct, end_pct)], then folded
    left to right through [ConditioningCombine].  The file gives the model,
    a closed form of the emitted graph, and the theorems on tiling, node
    counts, reachability and the empty-schedule error. *)

From stdpp Require Import base list strings decidable sets.
From Stdlib Require Import ZArith.
From S2P Require Import Prelude PyFloat GraphBuilder Schedule.

Local Open Scope list_scope.

Module LazyTextEncode.
Import PyFloat GraphBuilder Schedule.

Section text_encode.
Context `{FunctionExtractor}.

(** Lines 154-158: [classnames[0][0]] and [classnames[0][1]] when the
  annotation was found, the defaults otherwise. *)
Definition node_class (classnames : list (list string)) : exn + (string * string) :=
  match classnames with
  | [] => inr ("PCTextEncode", "text")
  | c0 :: _ =>
    match c0 !! 0, c0 !! 1 with
    | Some cn, Some pn => inr (cn, pn)
    | _, _ => inl IndexError
    end
  end.

(** Lines 152-166: the body of the loop for one segment; returns the
  range node appended to [nodes]. *)
Definition encode_segment (clip : value) (start_pct end_pct : float) (prompt : string)
  : PyM graph nat :=
  let '(p, classnames) := get_function prompt "NODE" ["PCTextEncode"; "text"] in
  '(classname, paramname) ← lift_exn (node_class classnames);
  node ← gb_node classname;
  timestep ← gb_node "ConditioningSetTimestepRange";
  set_input node "clip" clip;;
  set_input node paramname (VStr p);;
  set_input timestep "conditioning" (out node 0);;
  set_input timestep "start" (VFloat start_pct);;
  set_input timestep "end" (VFloat end_pct);;
  mret timestep.

(** Lines 150-167: the loop over the schedule, threading [start_pct]. *)
Fixpoint encode_loop (clip : value) (start_pct : float) (schedules : text_schedule)
  : PyM graph (list nat) :=
  match schedules with
  | [] => mret []
  | (end_pct, p) :: rest =>
    ts ← encode_segment clip start_pct end_pct p;
    tss ← encode_loop clip end_pct rest;
    mret (ts :: tss)
  end.

(** Lines 169-173: fold the range nodes through [ConditioningCombine]. *)
Fixpoint conditioning_fold (node : nat) (others : list nat) : PyM graph nat :=
  match others with
  | [] => mret node
  | othernode :: rest =>
    combiner ← gb_node "ConditioningCombine";
    set_input combiner "conditioning_1" (out node 0);;
    set_input combiner "conditioning_2" (out othernode 0);;
    conditioning_fold combiner rest
  end.

(** Lines 150-175 after the builder is created: [nodes[0]] raises
  [IndexError] on an empty schedule. *)
Definition encode_schedule (clip : value) (schedules : text_schedule) : PyM graph value :=
  nodes ← encode_loop clip 0%Z schedules;
  node ← py_index nodes 0;
  node ← conditioning_fold node (drop 1 nodes);
  mret (out node 0).

Definition builder_prefix (unique_id : string) : string := "PCEncodeLazy-" +:+ unique_id.

(** [PCLazyTextEncode.apply(clip, text, unique_id)]: the result
  [(node.out(0),)] and the finalized subgraph. *)
Definition apply `{ScheduleSource} (clip : value) (text unique_id : string)
  : exn + (value * list (string * (string * odict string value))) :=
  match text_segments text with
  | inl e => inl e
  | inr sched =>
    match encode_schedule clip sched (new_graph (builder_prefix unique_id)) with
    | inl e => inl e
    | inr (r, g) => inr (r, finalize g)
    end
  end.

(** * The graph the compiler emits, in closed form *)

(** The two nodes of a segment whose content node has id [i]. *)
Definition seg_nodes (clip : value) (i : nat) (s e : float) (p cn pn : string) : list node :=
  [mk_node i cn (put_input pn (VStr p) (put_input "clip" clip []));
 mk_node (S i) "ConditioningSetTimestepRange"
   [("conditioning", VLink i 0); ("start", VFloat s); ("end", VFloat e)]].

Lemma encode_segment_run clip s e prompt p cns cn pn g :
  get_function prompt "NODE" ["PCTextEncode"; "text"] = (p, cns) ->
  node_class cns = inr (cn, pn) -> ids_below g ->
  encode_segment clip s e prompt g =
  inr (S (id_gen g),
     mk_graph (prefix g) (nodes g ++ seg_nodes clip (id_gen g) s e p cn pn) (S (S (id_gen g)))).
Proof.
  intros Hgf Hnc Hb. unfold encode_segment. rewrite Hgf.
  cbv [mbind pym_bind mret pym_ret lift_exn]. rewrite Hnc.
  rewrite gb_node_run by done. rewrite gb_node_run by (by apply ids_below_gb_node).
  cbn [nodes prefix id_gen set_input]. rewrite <- app_assoc. simpl.
  update_fresh_simpl Hb. done.
Qed.

Lemma encode_segment_err clip s e prompt p cns err g :
  get_function prompt "NODE" ["PCTextEncode"; "text"] = (p, cns) ->
  node_class cns = inl err -> encode_segment clip s e prompt g = inl err.
Proof.
  intros Hgf Hnc. unfold encode_segment. rewrite Hgf.
  cbv [mbind pym_bind mret pym_ret lift_exn]. by rewrite Hnc.
Qed.

(** The nodes of the segments from the one whose content node is [i]. *)
Fixpoint text_nodes (clip : value) (i : nat) (start : float) (sched : text_schedule)
  : exn + list node :=
  match sched with
  | [] => inr []
  | (e, prompt) :: rest =>
    let '(p, cns) := get_function prompt "NODE" ["PCTextEncode"; "text"] in
    match node_class cns with
    | inl err => inl err
    | inr (cn, pn) =>
        match text_nodes clip (S (S i)) e rest with
        | inl err => inl err
        | inr ns => inr (seg_nodes clip i start e p cn pn ++ ns)
        end
    end
  end.

Lemma text_nodes_ids clip sched : forall i start ns,
  text_nodes clip i start sched = inr ns ->
  length ns = 2 * length sched /\ Forall (fun n => i <= nid n < i + 2 * length sched) ns.
Proof.
  induction sched as [|[e prompt] rest IH]; intros i start ns; simpl; [intros [= <-]; auto|].
  destruct (get_function _ _ _) as [p cns]. destruct (node_class cns) as [|[cn pn]]; [done|].
  destruct (text_nodes clip (S (S i)) e rest) as [|ns'] eqn:E; [done|]. intros [= <-].
  destruct (IH _ _ _ E) as [Hl Hf]. simpl. split; [lia|].
  repeat constructor; simpl; try lia. eapply Forall_impl; [done|]. simpl. lia.
Qed.

(** The ids of the range nodes: [i + 1], [i + 3], ... *)
Fixpoint range_ids (i n : nat) : list nat :=
  match n with
  | 0 => []
  | S n' => S i :: range_ids (S (S i)) n'
  end.

Lemma length_range_ids i n : length (range_ids i n) = n.
Proof. revert i. induction n; simpl; auto. Qed.

Lemma range_ids_bounds i n j : j ∈ range_ids i n -> S i <= j < S i + 2 * n.
Proof.
  revert i. induction n as [|n IH]; intros i; simpl; [set_solver|].
  rewrite elem_of_cons. intros [->|Hj]; [lia|]. specialize (IH _ Hj). lia.
Qed.

Lemma encode_loop_run clip sched : forall start g,
  ids_below g ->
  encode_loop clip start sched g =
  match text_nodes clip (id_gen g) start sched with
  | inl err => inl err
  | inr ns => inr (range_ids (id_gen g) (length sched),
                 mk_graph (prefix g) (nodes g ++ ns) (id_gen g + 2 * length sched))
  end.
Proof.
  induction sched as [|[e prompt] rest IH]; intros start g Hb; simpl.
  { cbv [mret pym_ret]. rewrite app_nil_r, Nat.add_0_r. by destruct g. }
  destruct (get_function prompt "NODE" ["PCTextEncode"; "text"]) as [p cns] eqn:Hgf.
  destruct (node_class cns) as [err|[cn pn]] eqn:Hnc.
  { cbv [mbind pym_bind]. by erewrite encode_segment_err. }
  erewrite pym_bind_inr by (eapply encode_segment_run; eauto).
  cbv [mbind pym_bind]. rewrite IH.
  2: { apply ids_below_app; [done| |lia]. repeat constructor; simpl; lia. }
  simpl. destruct (text_nodes clip (S (S (id_gen g))) e rest) as [err|ns]; [done|].
  cbv [mret pym_ret]. rewrite <- app_assoc. do 3 f_equal. lia.
Qed.

(** The [ConditioningCombine] nodes folding [others] into [prev], the
  first with id [i]. *)
Fixpoint combine_nodes (prev i : nat) (others : list nat) : list node :=
  match others with
  | [] => []
  | o :: rest =>
    mk_node i "ConditioningCombine" [("conditioning_1", VLink prev 0); ("conditioning_2", VLink o 0)]
      :: combine_nodes i (S i) rest
  end.

Fixpoint combine_result (prev i : nat) (others : list nat) : nat :=
  match others with
  | [] => prev
  | _ :: rest => combine_result i (S i) rest
  end.

Lemma conditioning_fold_run others : forall prev g,
  ids_below g ->
  conditioning_fold prev others g =
  inr (combine_result prev (id_gen g) others,
     mk_graph (prefix g) (nodes g ++ combine_nodes prev (id_gen g) others) (id_gen g + length others)).
Proof.
  induction others as [|o rest IH]; intros prev g Hb; simpl.
  { cbv [mret pym_ret]. rewrite app_nil_r, Nat.add_0_r. by destruct g. }
  erewrite pym_bind_inr by (by apply gb_node_run).
  cbv [mbind pym_bind set_input]. cbn [nodes prefix id_gen].
  update_fresh_simpl Hb. rewrite IH.
  2: { apply ids_below_app; [done| |lia]. repeat constructor; simpl; lia. }
  simpl. rewrite <- app_assoc. do 3 f_equal. lia.
Qed.

(** * The emitted graph in closed form *)

(** The graph [encode_schedule] builds from a fresh builder: the segments'
  nodes (ids 1 .. 2n), then [n - 1] combine nodes (ids 2n+1 .. 3n-1);
  the result is the last combine node, or the only range node. *)
Definition text_graph_spec (clip : value) (sched : text_schedule) (p : string)
  : exn + (value * graph) :=
  match text_nodes clip 1 0%Z sched with
  | inl err => inl err
  | inr ns =>
    match sched with
    | [] => inl IndexError
    | _ =>
        let n := length sched in
        let others := drop 1 (range_ids 1 n) in
        inr (VLink (combine_result 2 (S (2 * n)) others) 0,
             mk_graph p (ns ++ combine_nodes 2 (S (2 * n)) others) (S (2 * n) + length others))
    end
  end.

(** The run of [encode_schedule] on a fresh builder, in closed form. *)
Lemma encode_schedule_run clip sched p :
  encode_schedule clip sched (new_graph p) = text_graph_spec clip sched p.
Proof.
  unfold encode_schedule, text_graph_spec. cbv [mbind pym_bind].
  rewrite encode_loop_run by constructor. simpl.
  destruct (text_nodes clip 1 0%Z sched) as [err|ns] eqn:Hns; [done|].
  destruct sched as [|seg rest]; [done|]. simpl.
  cbv [py_index mret pym_ret]. simpl.
  destruct (text_nodes_ids _ _ _ _ _ Hns) as [_ Hids].
  rewrite conditioning_fold_run.
  - simpl. do 4 f_equal; lia.
  - unfold ids_below. simpl. eapply Forall_impl; [done|]. simpl. lia.
Qed.

(** C12: [PCLazyTextEncode]'s graph construction is equal to its closed
  form: on every schedule it raises exactly when the closed form does
  ([IndexError] for an empty schedule or a malformed [NODE(...)]
  annotation) and otherwise builds exactly the closed form's nodes. *)
Theorem encode_schedule_spec clip sched p :
  encode_schedule clip sched (new_graph p) = text_graph_spec clip sched p.
Proof. apply encode_schedule_run. Qed.

(** * Properties of the emitted graph *)

(** The [[start, end)] of the range node [h]. *)
Definition range_of (g : graph) (h : nat) : option (float * float) :=
  match node_input g h "start", node_input g h "end" with
  | Some (VFloat s), Some (VFloat e) => Some (s, e)
  | _, _ => None
  end.

Lemma text_nodes_ranges clip sched : forall i start ns p rest k,
  text_nodes clip i start sched = inr ns ->
  map (range_of (mk_graph p (ns ++ rest) k)) (range_ids i (length sched)) =
  map Some (tiles start (map fst sched)).
Proof.
  induction sched as [|[e prompt] sched IH]; intros i start ns p rest k; simpl; [done|].
  destruct (get_function _ _ _) as [q cns]. destruct (node_class cns) as [|[cn pn]]; [done|].
  destruct (text_nodes clip (S (S i)) e sched) as [|ns'] eqn:E; [done|]. intros [= <-].
  simpl. f_equal.
  - unfold range_of, node_input. simpl. rewrite decide_False, decide_True by lia. done.
  - rewrite <- (IH _ _ _ p rest k E). apply map_ext_in. intros j Hj.
  apply list_elem_of_In, range_ids_bounds in Hj.
  unfold range_of, node_input. simpl. by rewrite !decide_False by lia.
Qed.

Lemma omap_map_Some {A B} (f : A -> option B) (l : list A) (t : list B) :
  map f l = map Some t -> omap f l = t.
Proof.
  revert t. induction l as [|x l IH]; intros [|y t]; simpl; try done.
  intros [= -> Ht]. simpl. f_equal. auto.
Qed.

Lemma length_combine_nodes prev i others : length (combine_nodes prev i others) = length others.
Proof. revert prev i. induction others; simpl; auto. Qed.

Lemma encode_schedule_inv clip sched p r g :
  encode_schedule clip sched (new_graph p) = inr (r, g) ->
  exists ns, text_nodes clip 1 0%Z sched = inr ns /\ sched <> [] /\
  let n := length sched in let others := drop 1 (range_ids 1 n) in
  r = VLink (combine_result 2 (S (2 * n)) others) 0 /\
  g = mk_graph p (ns ++ combine_nodes 2 (S (2 * n)) others) (S (2 * n) + length others).
Proof.
  rewrite encode_schedule_run. unfold text_graph_spec.
  destruct (text_nodes clip 1 0%Z sched) as [err|ns]; [done|].
  destruct sched as [|seg rest]; [done|]. intros [= <- <-]. eexists; eauto.
Qed.

Lemma encode_schedule_range_nodes clip sched p r g :
  encode_schedule clip sched (new_graph p) = inr (r, g) ->
  map (range_of g) (range_ids 1 (length sched)) = map Some (tiles 0%Z (map fst sched)).
Proof.
  intros (ns & Hns & _ & _ & ->)%encode_schedule_inv. by eapply text_nodes_ranges.
Qed.

(** C19: The range nodes of the emitted graph restrict the segments to
  [[0, e1)], [[e1, e2)], ...: the start of each is the end of the
  previous one. *)
Theorem encode_schedule_ranges clip sched p r g :
  encode_schedule clip sched (new_graph p) = inr (r, g) ->
  map (range_of g) (range_ids 1 (length sched)) = map Some (tiles 0%Z (map fst sched)).
Proof. apply encode_schedule_range_nodes. Qed.

(** C18: On a well-formed schedule the range nodes tile [[0, 1)]: every percent
  lies in the range of exactly one of them. *)
Theorem encode_schedule_tiling clip sched p r g q :
  encode_schedule clip sched (new_graph p) = inr (r, g) ->
  ends_wf (map fst sched) = true -> (0 <= q < scale)%Z ->
  length (tiles_at q (omap (range_of g) (range_ids 1 (length sched)))) = 1.
Proof.
  intros Hrun Hwf Hq. rewrite (omap_map_Some _ _ _ (encode_schedule_range_nodes _ _ _ _ _ Hrun)).
  unfold ends_wf in Hwf. apply andb_true_iff in Hwf as [Hinc Hlast%bool_decide_eq_true].
  rewrite tiles_at_increasing by done. rewrite Hlast. simpl. by case_bool_decide.
Qed.

(** C20: A schedule of [n] segments yields [3n - 1] nodes: [n] content nodes,
  [n] range nodes and [n - 1] combine nodes. *)
Theorem encode_schedule_node_count clip sched p r g :
  encode_schedule clip sched (new_graph p) = inr (r, g) ->
  length (nodes g) = 3 * length sched - 1.
Proof.
  intros (ns & Hns & Hne & _ & ->)%encode_schedule_inv. simpl.
  destruct (text_nodes_ids _ _ _ _ _ Hns) as [Hl _].
  rewrite length_app, length_combine_nodes, length_drop, length_range_ids.
  destruct sched; [done|]. simpl in *. lia.
Qed.

End text_encode.

(** * Instances at concrete inputs *)

(** An extractor that finds no [NODE(...)] annotation. *)
Definition plain_extractor : FunctionExtractor := fun p _ _ => (p, []).

(** Spec example B: segments ["a"], ["b"], ["c"] ending at 0.3, 0.7, 1.0. *)
Definition example_b : text_schedule := [(3000%Z, "a"); (7000%Z, "b"); (10000%Z, "c")].

Definition example_b_run :=
  @encode_schedule plain_extractor (VExt "4" 0) example_b (new_graph "PCEncodeLazy-9").

Definition example_b_graph : graph :=
  match example_b_run with inr (_, g) => g | inl _ => new_graph "" end.

Lemma encode_schedule_tiling_witness :
  example_b_run = inr (VLink 8 0, example_b_graph) /\
  ends_wf (map fst example_b) = true /\ (0 <= 5000 < scale)%Z /\
  length (tiles_at 5000%Z (omap (range_of example_b_graph) (range_ids 1 (length example_b)))) = 1.
Proof.
  assert (Hrun : example_b_run = inr (VLink 8 0, example_b_graph)) by reflexivity.
  split; [exact Hrun|]. split; [reflexivity|]. split; [unfold scale; lia|].
  exact (encode_schedule_tiling _ _ _ _ _ 5000%Z Hrun eq_refl ltac:(unfold scale; lia)).
Defined.

Lemma encode_schedule_ranges_witness :
  map (range_of example_b_graph) (range_ids 1 3) =
  map Some (tiles 0%Z (map fst example_b)).
Proof. exact (encode_schedule_ranges _ _ _ _ _ (eq_refl : example_b_run = inr (VLink 8 0, example_b_graph))). Defined.

Lemma encode_schedule_node_count_witness :
  length (nodes example_b_graph) = 3 * length example_b - 1.
Proof. exact (encode_schedule_node_count _ _ _ _ _ (eq_refl : example_b_run = inr (VLink 8 0, example_b_graph))). Defined.

End LazyTextEncode.
