(* ===== verification/LazyLoraLoader.v ===== *)
(** [PCLazyLoraLoader.apply] ([nodes_lazy.py] lines 31-128), split along
    the code's loops: the static [LoraLoader] chain (lines 36-48), the
    keyframe loop over the consolidated schedule (lines 50-102), the
    [SetHookKeyframes] wrappers (lines 103-108), the hook combination
    (lines 109-117) and the optional [SetClipHooks] node (lines 118-124).
    The keyframe loop keeps [hook_nodes], a dict from the string key
    [f"{lora}-{weight}-{weight_clip}"] to the pair (hook node, last
    keyframe node), and mutates keyframe nodes it reuses; the model
    threads the builder store and the dict explicitly. *)

From stdpp Require Import base list strings decidable sets.
From Stdlib Require Import ZArith Ascii.
From S2P Require Import Prelude PyFloat GraphBuilder Schedule.

Local Open Scope list_scope.

Module LazyLoraLoader.
Import PyFloat GraphBuilder Schedule.

Section lora_loader.
Context `{LoraResolver}.

(** Lines 36-48: one [LoraLoader] per resolved static LoRA, chained
  through [model] and [clip]; unresolved names are skipped. *)
Fixpoint static_loop (model clip : value) (non_scheduled : loras) : PyM graph (value * value) :=
  match non_scheduled with
  | [] => mret (model, clip)
  | (lora, info) :: rest =>
    match lora_name_to_file lora with
    | None => static_loop model clip rest
    | Some path =>
        loader ← gb_node "LoraLoader";
        set_input loader "model" model;;
        set_input loader "clip" clip;;
        set_input loader "strength_model" (VFloat (weight info));;
        set_input loader "strength_clip" (VFloat (weight_clip info));;
        set_input loader "lora_name" (VStr path);;
        static_loop (out loader 0) (out loader 1) rest
    end
  end.

(** Lines 53-54: [f"{lora}-{info['weight']}-{info['weight_clip']}"]. *)
Definition key (lora : string) (info : lora_info) : string :=
  lora +:+ "-" +:+ py_float_repr (weight info) +:+ "-" +:+ py_float_repr (weight_clip info).

(** [hook_nodes]: key to (hook node, last keyframe node). *)
Definition hook_table := odict string (nat * nat).

(** Lines 89-91: a fresh keyframe at [start_pct] chained after
  [prev_hook_kf]. *)
Definition fresh_keyframe (start_pct : float) (prev_hook_kf : value) : PyM graph nat :=
  next_keyframe ← gb_node "CreateHookKeyframe";
  set_input next_keyframe "start_percent" (VFloat start_pct);;
  set_input next_keyframe "prev_hook_kf" prev_hook_kf;;
  mret next_keyframe.

(** Lines 64-80: the hook node, the previous keyframe (if any) and the
  link [prev_hook_kf] of a key, creating the hook node (and a leading
  0.0 keyframe when [start_pct > 0]) the first time the key is seen. *)
Definition hook_entry (hook_nodes : hook_table) (k path : string) (info : lora_info)
  (start_pct : float) : PyM graph (nat * option nat * value) :=
  match dget k hook_nodes with
  | None =>
    hook_node ← gb_node "CreateHookLora";
    set_input hook_node "lora_name" (VStr path);;
    set_input hook_node "strength_model" (VFloat (weight info));;
    set_input hook_node "strength_clip" (VFloat (weight_clip info));;
    if py_gt start_pct 0%Z then
      prev_keyframe ← gb_node "CreateHookKeyframe";
      set_input prev_keyframe "strength_mult" (VFloat 0%Z);;
      set_input prev_keyframe "start_percent" (VFloat 0%Z);;
      mret (hook_node, Some prev_keyframe, out prev_keyframe 0)
    else mret (hook_node, None, VNone)
  | Some (hook_node, prev_keyframe) =>
    mret (hook_node, Some prev_keyframe, out prev_keyframe 0)
  end.

(** Lines 82-91: reuse the previous keyframe when it reads as a 0.0
  keyframe at [start_pct] (the test reads the input ["start_pct"]),
  otherwise allocate a fresh one. *)
Definition activation_keyframe (prev_keyframe : option nat) (prev_hook_kf : value)
  (start_pct : float) : PyM graph nat :=
  match prev_keyframe with
  | Some pk =>
    sp ← get_input pk "start_pct";
    if value_eq_float sp start_pct then
      sm ← get_input pk "strength_mult";
      if value_eq_float sm 0%Z then mret pk else fresh_keyframe start_pct prev_hook_kf
    else fresh_keyframe start_pct prev_hook_kf
  | None => fresh_keyframe start_pct prev_hook_kf
  end.

(** Lines 57-101: one LoRA of one segment. *)
Definition hook_step (non_scheduled : loras) (start_pct end_pct : float)
  (hook_nodes : hook_table) (lora : string) (info : lora_info) : PyM graph hook_table :=
  if bool_decide (is_Some (dget lora non_scheduled)) then mret hook_nodes else
  match lora_name_to_file lora with
  | None => mret hook_nodes
  | Some path =>
    let k := key lora info in
    '(hook_node, prev_keyframe, prev_hook_kf) ← hook_entry hook_nodes k path info start_pct;
    next_keyframe ← activation_keyframe prev_keyframe prev_hook_kf start_pct;
    set_input next_keyframe "strength_mult" (VFloat scale);;
    let prev_hook_kf := out next_keyframe 0 in
    next_keyframe ←
      (if py_lt end_pct scale then
         nk ← gb_node "CreateHookKeyframe";
         set_input nk "strength_mult" (VFloat scale);;
         set_input nk "start_percent" (VFloat end_pct);;
         set_input nk "prev_hook_kf" prev_hook_kf;;
         mret nk
       else mret next_keyframe);
    mret (dset k (hook_node, next_keyframe) hook_nodes)
  end.

(** Line 57: the LoRAs of one segment, in the dict's order. *)
Fixpoint segment_loop (non_scheduled : loras) (start_pct end_pct : float)
  (hook_nodes : hook_table) (ls : loras) : PyM graph hook_table :=
  match ls with
  | [] => mret hook_nodes
  | (lora, info) :: rest =>
    hook_nodes ← hook_step non_scheduled start_pct end_pct hook_nodes lora info;
    segment_loop non_scheduled start_pct end_pct hook_nodes rest
  end.

(** Lines 56-102: the segments, threading [start_pct]. *)
Fixpoint schedule_loop (non_scheduled : loras) (start_pct : float)
  (hook_nodes : hook_table) (sched : consolidated) : PyM graph hook_table :=
  match sched with
  | [] => mret hook_nodes
  | (end_pct, ls) :: rest =>
    hook_nodes ← segment_loop non_scheduled start_pct end_pct hook_nodes ls;
    schedule_loop non_scheduled end_pct hook_nodes rest
  end.

(** Lines 103-108: a [SetHookKeyframes] node per entry of [hook_nodes]. *)
Fixpoint wrap_hooks (entries : list (nat * nat)) : PyM graph (list nat) :=
  match entries with
  | [] => mret []
  | (hook, kfs) :: rest =>
    n ← gb_node "SetHookKeyframes";
    set_input n "hooks" (out hook 0);;
    set_input n "hook_kf" (out kfs 0);;
    ns ← wrap_hooks rest;
    mret (n :: ns)
  end.

(** Lines 112-116: the loop [for h in hooks[:1]]. *)
Fixpoint combine_loop (res : nat) (hs : list nat) : PyM graph nat :=
  match hs with
  | [] => mret res
  | h :: rest =>
    n ← gb_node "CombineHooks2";
    set_input n "hooks_A" (out res 0);;
    set_input n "hooks_B" (out h 0);;
    combine_loop n rest
  end.

(** Lines 109-117: [res] is [None] without hooks. *)
Definition combine_hooks (hooks : list nat) : PyM graph value :=
  match hooks with
  | [] => mret VNone
  | h0 :: _ => r ← combine_loop h0 (take 1 hooks); mret (out r 0)
  end.

(** Lines 118-124. *)
Definition clip_hooks (apply_hooks : bool) (clip res : value) : PyM graph value :=
  if apply_hooks then
  n ← gb_node "SetClipHooks";
  set_input n "clip" clip;;
  set_input n "hooks" res;;
  set_input n "apply_to_conds" (VBool true);;
  set_input n "schedule_clip" (VBool true);;
  mret (out n 0)
  else mret clip.

(** Lines 34-124 on a consolidated schedule: the result
  [(model, clip, res)]. *)
Definition lora_graph (model clip : value) (apply_hooks : bool) (consolidated : consolidated)
  : PyM graph (value * value * value) :=
  let non_scheduled := find_nonscheduled_loras consolidated in
  '(model, clip) ← static_loop model clip non_scheduled;
  hook_nodes ← schedule_loop non_scheduled 0%Z [] consolidated;
  hooks ← wrap_hooks (dvalues hook_nodes);
  res ← combine_hooks hooks;
  clip ← clip_hooks apply_hooks clip res;
  mret (model, clip, res).

Definition builder_prefix (unique_id : string) : string := "PCLazyLoraLoader-" +:+ unique_id.

(** [PCLazyLoraLoader.apply(model, clip, text, apply_hooks, unique_id)]. *)
Definition apply `{ScheduleSource} (model clip : value) (text : string) (apply_hooks : bool)
  (unique_id : string)
  : exn + (value * value * value * list (string * (string * odict string value))) :=
  match consolidated_loras text with
  | inl e => inl e
  | inr sched =>
    match lora_graph model clip apply_hooks sched (new_graph (builder_prefix unique_id)) with
    | inl e => inl e
    | inr (r, g) => inr (r, finalize g)
    end
  end.

(** * The key of a hook chain *)

(** Read a key back: the name up to the first dash, then the two printed
  floats. *)
Definition parse_key (k : string) : option (string * lora_info) :=
  '(lora, r) ← break_at "-"%char k;
  '(w, r') ← parse_float_dash r;
  wc ← parse_float r';
  Some (lora, mk_info w wc).

Lemma parse_key_key lora info :
  has_char "-"%char lora = false -> parse_key (key lora info) = Some (lora, info).
Proof.
  intros Hd. unfold parse_key, key. rewrite !str_app_cons, !str_app_empty, break_at_app by done. simpl.
  rewrite parse_float_dash_repr. simpl. rewrite parse_float_py_float_repr. by destruct info.
Qed.

(** C17: For LoRA names without a dash the key determines the LoRA and its
  weights: two chains share a hook node only when they are the same
  LoRA at the same weights. *)
Theorem key_inj lora1 info1 lora2 info2 :
  has_char "-"%char lora1 = false -> has_char "-"%char lora2 = false ->
  key lora1 info1 = key lora2 info2 -> lora1 = lora2 /\ info1 = info2.
Proof.
  intros H1 H2 Hk. apply (f_equal parse_key) in Hk.
  rewrite !parse_key_key in Hk by done. by injection Hk.
Qed.

(** * Combining the hooks *)

(** C1: Whatever the number of hooks, [res] is one [CombineHooks2] node whose
  two inputs are both the first hook: the loop runs over [hooks[:1]],
  so the first hook is combined with itself and every other hook is
  left out of the result. *)
Theorem combine_hooks_first_only h0 rest g :
  ids_below g ->
  combine_hooks (h0 :: rest) g =
  inr (VLink (id_gen g) 0,
     mk_graph (prefix g)
       (nodes g ++ [mk_node (id_gen g) "CombineHooks2" [("hooks_A", VLink h0 0); ("hooks_B", VLink h0 0)]])
       (S (id_gen g))).
Proof.
  intros Hb. unfold combine_hooks. simpl. cbv [mbind pym_bind mret pym_ret].
  rewrite gb_node_run by done. cbv [set_input]. cbn [nodes prefix id_gen].
  update_fresh_simpl Hb. done.
Qed.

Lemma combine_hooks_nil g : combine_hooks [] g = inr (VNone, g).
Proof. reflexivity. Qed.

End lora_loader.

(** * The keyframe reuse of line 87 never happens

    The reuse test reads the input ["start_pct"] of the previous keyframe,
    but keyframes store their percent under ["start_percent"]: no node of
    the builder ever has a ["start_pct"] input, the test compares [None]
    with a float, and a fresh keyframe is allocated every time. *)

Section no_reuse.
Context `{LoraResolver}.

Lemma keeps_fresh_keyframe s prev : keeps (no_input "start_pct") (fresh_keyframe s prev).
Proof. unfold fresh_keyframe. keeps_split. Qed.
#[local] Hint Resolve keeps_fresh_keyframe : pc.

Lemma keeps_hook_step ns s e hn lora info :
  keeps (no_input "start_pct") (hook_step ns s e hn lora info).
Proof. unfold hook_step, hook_entry, activation_keyframe. keeps_split. Qed.
#[local] Hint Resolve keeps_hook_step : pc.

Lemma keeps_schedule_loop ns s hn sched : keeps (no_input "start_pct") (schedule_loop ns s hn sched).
Proof.
  revert s hn. induction sched as [|[e ls] rest IH]; intros s hn; simpl; keeps_split.
  revert hn. induction ls as [|[l i] ls IHl]; intros hn; simpl; keeps_split.
Qed.

Lemma keeps_static_loop model clip ns : keeps (no_input "start_pct") (static_loop model clip ns).
Proof. revert model clip. induction ns as [|[l i] ns IH]; intros model clip; simpl; keeps_split. Qed.

Lemma keeps_wrap_hooks es : keeps (no_input "start_pct") (wrap_hooks es).
Proof. induction es as [|[h kf] es IH]; simpl; keeps_split. Qed.

Lemma keeps_combine_hooks hs : keeps (no_input "start_pct") (combine_hooks hs).
Proof. unfold combine_hooks. destruct hs as [|h0 hs]; keeps_split. Qed.

(** C11: No run of the compiler creates a ["start_pct"] input. *)
Theorem lora_graph_no_start_pct model clip apply_hooks sched :
  keeps (no_input "start_pct") (lora_graph model clip apply_hooks sched).
Proof.
  unfold lora_graph, clip_hooks.
  pose proof keeps_static_loop. pose proof keeps_schedule_loop.
  pose proof keeps_wrap_hooks. pose proof keeps_combine_hooks. keeps_split.
Qed.

Lemma activation_keyframe_no_reuse pk prev_hook_kf start_pct g :
  no_input "start_pct" g ->
  activation_keyframe (Some pk) prev_hook_kf start_pct g = fresh_keyframe start_pct prev_hook_kf g.
Proof.
  intros Hg. unfold activation_keyframe. cbv [mbind pym_bind].
  by rewrite get_input_no_input.
Qed.

(** C6: In every such store the previous keyframe is never reused: the
  activation keyframe is a fresh [CreateHookKeyframe] node. *)
Theorem activation_keyframe_fresh pk prev_hook_kf start_pct g :
  no_input "start_pct" g ->
  activation_keyframe (Some pk) prev_hook_kf start_pct g = fresh_keyframe start_pct prev_hook_kf g.
Proof. apply activation_keyframe_no_reuse. Qed.

End no_reuse.

(** * Instances at concrete inputs *)

(** A graph holding two [SetHookKeyframes] nodes. *)
Definition two_hooks_graph : graph :=
  mk_graph "PCLazyLoraLoader-7" [mk_node 1 "SetHookKeyframes" []; mk_node 2 "SetHookKeyframes" []] 3.

Lemma combine_hooks_first_only_witness :
  ids_below two_hooks_graph /\
  combine_hooks [1; 2] two_hooks_graph =
  inr (VLink 3 0,
       mk_graph "PCLazyLoraLoader-7"
         (nodes two_hooks_graph ++ [mk_node 3 "CombineHooks2" [("hooks_A", VLink 1 0); ("hooks_B", VLink 1 0)]]) 4).
Proof.
  assert (Hb : ids_below two_hooks_graph) by (repeat constructor; simpl; lia).
  split; [exact Hb|]. exact (combine_hooks_first_only 1 [2] two_hooks_graph Hb).
Defined.

(** A 0.0 keyframe at percent 0: the keyframe line 84 means to reuse. *)
Definition zero_keyframe_graph : graph :=
  mk_graph "PCLazyLoraLoader-7"
    [mk_node 1 "CreateHookKeyframe" [("strength_mult", VFloat 0%Z); ("start_percent", VFloat 0%Z)]] 2.

Lemma activation_keyframe_fresh_witness :
  no_input "start_pct" zero_keyframe_graph /\
  activation_keyframe (Some 1) (VLink 1 0) 0%Z zero_keyframe_graph =
  fresh_keyframe 0%Z (VLink 1 0) zero_keyframe_graph.
Proof.
  assert (Hn : no_input "start_pct" zero_keyframe_graph) by (repeat constructor).
  split; [exact Hn|]. exact (activation_keyframe_fresh 1 (VLink 1 0) 0%Z zero_keyframe_graph Hn).
Defined.

Lemma key_inj_witness :
  has_char "-"%char "x" = false /\ has_char "-"%char "y" = false /\
  (key "x" (mk_info 10000 5000) = key "y" (mk_info 10000 5000) -> "x" = "y" /\ mk_info 10000 5000 = mk_info 10000 5000)%Z.
Proof.
  split; [reflexivity|]. split; [reflexivity|].
  apply key_inj; reflexivity.
Defined.

End LazyLoraLoader.
