(* ===== verification/Partition.v ===== *)
(** The static/dynamic partition of [PCLazyLoraLoader.apply] (lines
    33-48 and 59-64) and the skipping of LoRAs: the keyframe loop ignores
    a LoRA that [find_nonscheduled_loras] promoted to a static
    [LoraLoader] or whose file [lora_name_to_file] does not find, so the
    compiler does on a schedule exactly what it does on the schedule
    with that LoRA removed from every segment.  This gives the spec's
    "static promotion" and "resolver failure" properties (section 8). *)

From stdpp Require Import base list strings decidable sets.
From Stdlib Require Import ZArith.
From S2P Require Import Prelude PyFloat GraphBuilder Schedule LazyLoraLoader.

Local Open Scope list_scope.

Module Partition.
Import PyFloat GraphBuilder Schedule LazyLoraLoader.

(** A segment's LoRAs without [lora]. *)
Definition drop_in (lora : string) (ls : list (string * lora_info)) : loras :=
  filter (fun kv => kv.1 ≠ lora) ls.

(** The schedule with [lora] removed from every segment. *)
Definition drop_lora (lora : string) (sched : consolidated) : consolidated :=
  map (fun '(e, ls) => (e, drop_in lora ls)) sched.

Lemma dget_drop_in_ne {V} lora k (l : list (string * V)) :
  k ≠ lora -> dget k (filter (fun kv => kv.1 ≠ lora) l) = dget k l.
Proof.
  intros Hk. induction l as [|[k' v] l IH]; [done|]. rewrite filter_cons. simpl.
  case_decide as Hne; simpl in *; [by case_decide|].
  rewrite decide_False by congruence. done.
Qed.

Lemma forallb_drop name info lora (rest : consolidated) :
  name ≠ lora ->
  forallb (fun '(_, ls) => bool_decide (dget name ls = Some info)) (drop_lora lora rest) =
  forallb (fun '(_, ls) => bool_decide (dget name ls = Some info)) rest.
Proof.
  intros Hn. induction rest as [|[e ls] rest IH]; [done|]. simpl.
  unfold drop_in. by rewrite dget_drop_in_ne, IH.
Qed.

(** Removing a LoRA from the schedule removes it from the static set and
    changes nothing else there. *)
Lemma find_nonscheduled_drop lora sched :
  find_nonscheduled_loras (drop_lora lora sched) = drop_in lora (find_nonscheduled_loras sched).
Proof.
  destruct sched as [|[e first] rest]; [done|]. simpl. unfold drop_in, loras, odict in *.
  rewrite !list_filter_filter. apply list_filter_iff. intros [name info]. simpl.
  destruct (decide (name = lora)) as [->|Hn]; [naive_solver|].
  pose proof (forallb_drop name info lora rest Hn) as Hf. unfold loras, odict in Hf. rewrite Hf. naive_solver.
Qed.

Lemma dget_filter_Some {V} (P : string * V -> Prop) `{!forall x, Decision (P x)} k v (l : list (string * V)) :
  dget k l = Some v -> P (k, v) -> dget k (filter P l) = Some v.
Proof.
  induction l as [|[k' v'] l IH]; [done|]. simpl. intros Hk HP. rewrite filter_cons.
  destruct (decide (k = k')) as [->|Hne].
  - injection Hk as <-. rewrite decide_True by done. simpl. by rewrite decide_True.
  - destruct (decide (P (k', v'))); simpl; [rewrite decide_False by done|]; auto.
Qed.

Section skipping.
Context `{LoraResolver}.
Variable lora : string.

(** The keyframe loop skips [lora]: it is static or does not resolve. *)
Definition skipped (ns : loras) : Prop := is_Some (dget lora ns) \/ lora_name_to_file lora = None.

(** [ns'] and [ns] agree on every other LoRA. *)
Definition agree (ns' ns : loras) : Prop := forall l, l ≠ lora -> dget l ns' = dget l ns.

Lemma hook_step_skipped ns s e hn info : skipped ns -> hook_step ns s e hn lora info = mret hn.
Proof.
  unfold hook_step. intros Hs. case_bool_decide; [done|].
  destruct Hs as [Hs|Hs]; [contradiction|by rewrite Hs].
Qed.

Lemma hook_step_other ns' ns s e hn l info :
  agree ns' ns -> l ≠ lora -> hook_step ns' s e hn l info = hook_step ns s e hn l info.
Proof. intros Ha Hl. unfold hook_step. by rewrite Ha. Qed.

Lemma segment_loop_drop ns' ns s e ls :
  skipped ns -> agree ns' ns ->
  forall hn g, segment_loop ns' s e hn (drop_in lora ls) g = segment_loop ns s e hn ls g.
Proof.
  intros Hs Ha. induction ls as [|[l info] ls IH]; intros hn g; [done|].
  unfold drop_in. rewrite filter_cons. simpl. case_decide as Hl; simpl in Hl.
  - simpl. apply pym_bind_cong; [intros; by rewrite (hook_step_other ns' ns)|intros; apply IH].
  - assert (l = lora) as -> by (destruct (decide (l = lora)); naive_solver). rewrite hook_step_skipped by done.
    rewrite pym_bind_ret_l. apply IH.
Qed.

Lemma schedule_loop_drop ns' ns sched :
  skipped ns -> agree ns' ns ->
  forall s hn g, schedule_loop ns' s hn (drop_lora lora sched) g = schedule_loop ns s hn sched g.
Proof.
  intros Hs Ha. induction sched as [|[e ls] sched IH]; intros s hn g; [done|]. simpl.
  apply pym_bind_cong; [intros; by apply segment_loop_drop|intros; apply IH].
Qed.

Lemma static_loop_drop model clip ns :
  lora_name_to_file lora = None ->
  forall g, static_loop model clip (drop_in lora ns) g = static_loop model clip ns g.
Proof.
  intros Hr. revert model clip. induction ns as [|[l info] ns IH]; intros model clip g; [done|].
  unfold drop_in. rewrite filter_cons. simpl. case_decide as Hl; simpl in Hl.
  - simpl. destruct (lora_name_to_file l); [|apply IH].
    repeat (apply pym_bind_cong; [done|intros ? ?]). apply IH.
  - assert (l = lora) as -> by (destruct (decide (l = lora)); naive_solver). rewrite Hr. apply IH.
Qed.
(** C7: Resolver failure (spec section 8): a LoRA whose file is not found is
    dropped silently: the whole compiler does on the schedule exactly
    what it does on the schedule without that LoRA, so every other LoRA
    is compiled as if it were absent and nothing raises. *)
Theorem lora_graph_resolver_failure model clip apply_hooks sched g :
  lora_name_to_file lora = None ->
  lora_graph model clip apply_hooks (drop_lora lora sched) g = lora_graph model clip apply_hooks sched g.
Proof.
  intros Hr. unfold lora_graph. rewrite find_nonscheduled_drop.
  apply pym_bind_cong; [intros; by apply static_loop_drop|intros [m c] g1].
  apply pym_bind_cong; [|done]. intros g2. apply schedule_loop_drop; [by right|].
  intros l Hl. by apply dget_drop_in_ne.
Qed.

(** C8: Static promotion (spec section 8): a LoRA with the same weights in
    every segment is in the static set with those weights, and the
    keyframe loop does on the schedule exactly what it does without it:
    it gets no hook and no keyframe node. *)
Theorem static_promotion e0 first rest info :
  dget lora first = Some info -> Forall (fun seg => dget lora seg.2 = Some info) rest ->
  dget lora (find_nonscheduled_loras ((e0, first) :: rest)) = Some info /\
  forall s hn g,
    schedule_loop (find_nonscheduled_loras ((e0, first) :: rest)) s hn (drop_lora lora ((e0, first) :: rest)) g =
    schedule_loop (find_nonscheduled_loras ((e0, first) :: rest)) s hn ((e0, first) :: rest) g.
Proof.
  intros Hf Hrest.
  assert (Hs : dget lora (find_nonscheduled_loras ((e0, first) :: rest)) = Some info).
  { apply dget_filter_Some; [done|]. apply forallb_forall. intros [e ls] Hin.
    rewrite Forall_forall in Hrest. apply bool_decide_eq_true.
    apply (Hrest (e, ls)), list_elem_of_In, Hin. }
  split; [done|]. intros s hn g. apply schedule_loop_drop; [left; by eexists|done].
Qed.
End skipping.

(** * Instances at concrete inputs *)

(** A resolver that does not find LoRA [b]. *)
Definition without_b : LoraResolver := fun n => if decide (n = "b") then None else Some n.

Definition ab_sched : consolidated :=
  [(5000%Z, [("a", mk_info 10000%Z 10000%Z); ("b", mk_info 5000%Z 5000%Z)]); (10000%Z, [("b", mk_info 5000%Z 5000%Z)])].

Lemma lora_graph_resolver_failure_witness :
  @lora_name_to_file without_b "b" = None /\
  @lora_graph without_b VNone VNone true (drop_lora "b" ab_sched) (new_graph "p") =
  @lora_graph without_b VNone VNone true ab_sched (new_graph "p").
Proof.
  assert (Hr : @lora_name_to_file without_b "b" = None) by reflexivity.
  split; [exact Hr|].
  exact (@lora_graph_resolver_failure without_b "b" VNone VNone true ab_sched (new_graph "p") Hr).
Defined.

Definition static_sched : consolidated :=
  [(5000%Z, [("s", mk_info 10000%Z 10000%Z); ("d", mk_info 10000%Z 10000%Z)]);
   (10000%Z, [("s", mk_info 10000%Z 10000%Z)])].

Lemma static_promotion_witness :
  dget "s" [("s", mk_info 10000%Z 10000%Z); ("d", mk_info 10000%Z 10000%Z)] = Some (mk_info 10000%Z 10000%Z) /\
  Forall (fun seg : float * loras => dget "s" seg.2 = Some (mk_info 10000%Z 10000%Z))
    [(10000%Z, [("s", mk_info 10000%Z 10000%Z)])] /\
  dget "s" (find_nonscheduled_loras static_sched) = Some (mk_info 10000%Z 10000%Z).
Proof.
  assert (H1 : dget "s" [("s", mk_info 10000%Z 10000%Z); ("d", mk_info 10000%Z 10000%Z)] =
               Some (mk_info 10000%Z 10000%Z)) by reflexivity.
  assert (H2 : Forall (fun seg : float * loras => dget "s" seg.2 = Some (mk_info 10000%Z 10000%Z))
                 [(10000%Z, [("s", mk_info 10000%Z 10000%Z)])]) by (repeat constructor).
  split; [exact H1|]. split; [exact H2|].
  exact (proj1 (@static_promotion without_b "s" 5000%Z _ _ _ H1 H2)).
Defined.

End Partition.
