(* ===== verification/HookChains.v ===== *)
(** The keyframe loop of [PCLazyLoraLoader.apply] (lines 56-102) against
    an abstract specification.  One step of the loop appends the nodes
    [step_nodes] describes to the store ([hook_step_run]); the abstract
    schedule [abs_schedule] gives, per key of [hook_nodes], the keyframes
    its chain should hold; [schedule_loop] refines it under the store
    invariant [store_ok], every abstract chain has [chain_shape], so a
    dynamic LoRA once switched on stays on, and every scheduled LoRA that
    resolves gets an entry.  A LoRA whose key collides with an existing
    entry creates no hook node of its own. *)

From stdpp Require Import base list strings decidable sets.
From Stdlib Require Import ZArith Ascii.
From S2P Require Import Prelude PyFloat GraphBuilder Keyframes Schedule LazyLoraLoader.

Local Open Scope list_scope.

Module HookChains.
Import PyFloat GraphBuilder Keyframes Schedule LazyLoraLoader.

Section hook_chains.
Context `{LoraResolver}.

Definition hook_node_of (i : nat) (path : string) (info : lora_info) : node :=
  mk_node i "CreateHookLora"
    [("lora_name", VStr path); ("strength_model", VFloat (weight info));
     ("strength_clip", VFloat (weight_clip info))].

(** The nodes [hook_entry] creates, the hook id and the [prev_hook_kf]
    link. *)
Definition step_head (i : nat) (path : string) (info : lora_info) (ex : option (nat * nat))
    (s : float) : list node * nat * value :=
  match ex with
  | Some (h, pk) => ([], h, VLink pk 0)
  | None =>
      if py_gt s 0%Z then
        ([hook_node_of i path info;
          mk_node (S i) "CreateHookKeyframe" [("strength_mult", VFloat 0%Z); ("start_percent", VFloat 0%Z)]],
         i, VLink (S i) 0)
      else ([hook_node_of i path info], i, VNone)
  end.

(** All nodes one step appends, and the new entry of [hook_nodes]. *)
Definition step_nodes (i : nat) (path : string) (info : lora_info) (ex : option (nat * nat))
    (s e : float) : list node * (nat * nat) :=
  let '(hd, hook, prev) := step_head i path info ex s in
  let j := i + length hd in
  let act := mk_node j "CreateHookKeyframe"
               (dset "strength_mult" (VFloat scale) (put_input "prev_hook_kf" prev [("start_percent", VFloat s)])) in
  if py_lt e scale then
    (hd ++ [act; mk_node (S j) "CreateHookKeyframe"
                   [("strength_mult", VFloat scale); ("start_percent", VFloat e); ("prev_hook_kf", VLink j 0)]],
     (hook, S j))
  else (hd ++ [act], (hook, j)).

(** The store invariant the keyframe loop keeps: the allocation check
    never fires, no node has the input ["start_pct"] the reuse test reads,
    and [prev_hook_kf] links point to older nodes. *)
Record store_ok (g : graph) : Prop := {
  ok_ids : ids_below g;
  ok_start_pct : no_input "start_pct" g;
  ok_links : prev_links_below (nodes g) }.

(** The chain the activation keyframe of a step extends. *)
Definition prev_chain (g : graph) (ex : option (nat * nat)) (s : float) : list (float * float) :=
  match ex with
  | Some (_, pk) => kf_chain g pk
  | None => if py_gt s 0%Z then [(0%Z, 0%Z)] else []
  end.

(** The store after one step. *)
Definition step_graph (g : graph) (new : list node) : graph :=
  mk_graph (prefix g) (nodes g ++ new) (id_gen g + length new).

(** * The keyframe schedule the loop promises

    Per key of [hook_nodes], the keyframes its chain ends with after each
    LoRA of each segment, [None] before the key is first seen: the first
    time a leading 0.0 keyframe at 0.0 when the segment starts after 0.0,
    then on every segment that names the LoRA the activation keyframe at
    the segment's start and, before the end of sampling, a keyframe at
    the segment's end, both at 1.0. *)
Definition chain := list (float * float).

Definition abs_entry (prev : option chain) (s e : float) : chain :=
  default (if py_gt s 0%Z then [(0%Z, 0%Z)] else []) prev ++
  (s, scale) :: (if py_lt e scale then [(e, scale)] else []).

Definition abs_hook (ns : loras) (s e : float) (k : string) (acc : option chain)
    (l : string * lora_info) : option chain :=
  let '(lora, info) := l in
  if bool_decide (is_Some (dget lora ns)) then acc else
  match lora_name_to_file lora with
  | None => acc
  | Some _ => if decide (key lora info = k) then Some (abs_entry acc s e) else acc
  end.

Definition abs_segment (ns : loras) (s e : float) (k : string) (acc : option chain) (ls : loras)
    : option chain :=
  fold_left (abs_hook ns s e k) ls acc.

Fixpoint abs_schedule (ns : loras) (s : float) (k : string) (acc : option chain)
    (sched : consolidated) : option chain :=
  match sched with
  | [] => acc
  | (e, ls) :: rest => abs_schedule ns e k (abs_segment ns s e k acc ls) rest
  end.

(** The store refines the abstract schedule [A]: every key of
    [hook_nodes] names a node whose chain is [A]'s, and [A] knows no
    other key. *)
Definition table_refines (g : graph) (hn : hook_table) (A : string -> option chain) : Prop :=
  NoDup (dkeys hn) /\ forall k, match dget k hn with
            | Some (_, kf) => kf < id_gen g /\ A k = Some (kf_chain g kf)
            | None => A k = None
            end.

(** Split a step into the six shapes of [step_nodes]. *)
Ltac step_cases ex s e :=
  destruct ex as [[?h ?pk]|]; [|destruct (py_gt s 0%Z)]; destruct (py_lt e scale).

(** Prove [Forall P l] of a concrete list element by element. *)
Ltac forall_each := repeat match goal with |- Forall _ _ => constructor end.

(** Side conditions of a run on a store grown by [push]. *)
Ltac ids_push := first [assumption | apply ids_below_push; [ids_push | reflexivity]].
Ltac no_input_push := first [assumption | apply no_input_push; [no_input_push | reflexivity]].

(** Run a builder program on a store grown by [push], one bind at a time. *)
Ltac push_run :=
  repeat first
    [ rewrite pym_bind_assoc
    | rewrite pym_bind_ret_l
    | erewrite pym_bind_inr by (apply gb_node_push; ids_push)
    | erewrite pym_bind_inr by (apply set_input_push; ids_push)
    | erewrite pym_bind_same by (apply activation_keyframe_no_reuse; no_input_push)
    | progress change (activation_keyframe None ?p ?s) with (fresh_keyframe s p)
    | progress unfold fresh_keyframe
    | progress cbn beta iota ].

Lemma hook_step_run ns s e hn lora info path g :
  ids_below g -> no_input "start_pct" g ->
  dget lora ns = None -> lora_name_to_file lora = Some path ->
  hook_step ns s e hn lora info g =
  let '(new, entry) := step_nodes (id_gen g) path info (dget (key lora info) hn) s e in
  inr (dset (key lora info) entry hn, step_graph g new).
Proof.
  intros Hb Hn Hs Hp. unfold hook_step, step_graph. rewrite Hs, Hp. simpl.
  unfold hook_entry, step_nodes, step_head.
  destruct (dget (key lora info) hn) as [[h pk]|] eqn:Ek; [|destruct (py_gt s 0%Z)];
    destruct (py_lt e scale).
  all: push_run.
  all: cbv [mret pym_ret push out]; simpl; rewrite ?Nat.add_succ_r, ?Nat.add_0_r, <- ?app_assoc; reflexivity.
Qed.

(** The nodes a step appends lie at or above the counter, and the new
    entry names the last of them. *)
Lemma step_nodes_fresh i path info ex s e :
  Forall (fun n => i <= nid n < i + length (step_nodes i path info ex s e).1)
    (step_nodes i path info ex s e).1 /\
  i <= (step_nodes i path info ex s e).2.2 < i + length (step_nodes i path info ex s e).1.
Proof.
  unfold step_nodes, step_head. step_cases ex s e; simpl; (split; [forall_each; simpl; lia|lia]).
Qed.

Lemma step_store_ok g path info ex s e :
  store_ok g -> (forall h pk, ex = Some (h, pk) -> pk < id_gen g) ->
  store_ok (step_graph g (step_nodes (id_gen g) path info ex s e).1).
Proof.
  intros [Hb Hn Hl] Hex. pose proof (step_nodes_fresh (id_gen g) path info ex s e) as [Hf _].
  split; unfold step_graph.
  - apply ids_below_app; [done| |lia]. eapply Forall_impl; [exact Hf|]. simpl. lia.
  - apply no_input_app; [done|]. unfold step_nodes, step_head. step_cases ex s e; forall_each; reflexivity.
  - simpl. apply Forall_app. split; [done|]. unfold step_nodes, step_head.
    step_cases ex s e; try specialize (Hex _ _ eq_refl);
      forall_each; intros ? ? Hk; simpl in Hk; first [discriminate | injection Hk as <- <-; simpl; lia].
Qed.

(** Chains of nodes older than the step are unchanged by it. *)
Lemma kf_chain_step_graph g new kf :
  store_ok g -> Forall (fun n => id_gen g <= nid n) new -> kf < id_gen g ->
  kf_chain (step_graph g new) kf = kf_chain g kf.
Proof. intros [Hb _ Hl] Hn Hk. apply (kf_chain_fuel_app _ _ _ (id_gen g)); done. Qed.

(** Walk the chain of a node a step appended. *)
Ltac walk_new Hok Hok' Hold :=
  repeat first
    [ rewrite (kf_chain_step_graph _ _ _ Hok) by (exact Hold || forall_each; simpl; lia)
    | erewrite kf_chain_node by
        (first [ exact (ok_links _ Hok')
               | unfold step_graph; simpl; rewrite find_node_above by (exact (ok_ids _ Hok) || lia);
                 repeat (rewrite find_node_cons_ne by (simpl; lia)); apply find_node_cons_eq; simpl; lia ])
    | progress simpl ].

(** The chain of the entry a step writes: the chain it extends, the
    activation keyframe at [start_pct] and, before the end of sampling,
    the closing keyframe at [end_pct], both at 1.0. *)
Lemma step_chain g path info ex s e :
  store_ok g -> (forall h pk, ex = Some (h, pk) -> pk < id_gen g) ->
  kf_chain (step_graph g (step_nodes (id_gen g) path info ex s e).1) (step_nodes (id_gen g) path info ex s e).2.2 =
  prev_chain g ex s ++ (s, scale) :: (if py_lt e scale then [(e, scale)] else []).
Proof.
  intros Hok Hex. pose proof (step_store_ok g path info ex s e Hok Hex) as Hok'.
  unfold step_nodes, step_head, prev_chain in *.
  step_cases ex s e; try (pose proof (Hex _ _ eq_refl) as Hold); simpl in *.
  all: walk_new Hok Hok' Hold.
  all: cbv [kf_entry float_input]; simpl; by rewrite <- ?app_assoc.
Qed.

(** One step of the loop runs without error, keeps the store invariant
    and refines [abs_hook]. *)
Lemma hook_step_refines ns s e hn lora info g A :
  store_ok g -> table_refines g hn A ->
  exists hn' g', hook_step ns s e hn lora info g = inr (hn', g') /\ store_ok g' /\
    table_refines g' hn' (fun k => abs_hook ns s e k (A k) (lora, info)).
Proof.
  intros Hok HA. unfold abs_hook.
  destruct (bool_decide (is_Some (dget lora ns))) eqn:Ens;
    [exists hn, g; unfold hook_step; by rewrite Ens|].
  destruct (lora_name_to_file lora) as [path|] eqn:Ep;
    [|exists hn, g; unfold hook_step; by rewrite Ens, Ep].
  assert (Hns : dget lora ns = None) by (apply eq_None_not_Some; by apply bool_decide_eq_false in Ens).
  assert (Hex : forall h pk, dget (key lora info) hn = Some (h, pk) -> pk < id_gen g)
    by (intros h pk Hk; pose proof (proj2 HA (key lora info)) as HA'; rewrite Hk in HA'; apply HA').
  rewrite (hook_step_run _ _ _ _ _ _ path) by (done || apply Hok).
  pose proof (step_store_ok g path info _ s e Hok Hex) as Hok'.
  pose proof (step_chain g path info _ s e Hok Hex) as Hc.
  pose proof (step_nodes_fresh (id_gen g) path info (dget (key lora info) hn) s e) as [Hf Hkf].
  destruct (step_nodes _ _ _ _ _ _) as [new [hook kf]]. simpl in *.
  eexists _, _. split; [reflexivity|]. split; [done|].
  destruct HA as [Hnd HA]. split; [by apply dset_NoDup|].
  intros k. destruct (decide (k = key lora info)) as [->|Hne].
  - rewrite dget_dset_eq, decide_True by done. split; [unfold step_graph; simpl; lia|].
    rewrite Hc. specialize (HA (key lora info)). unfold abs_entry, prev_chain.
    destruct (dget (key lora info) hn) as [[h pk]|]; [destruct HA as [_ ->]|rewrite HA]; done.
  - rewrite dget_dset_ne, decide_False by done. specialize (HA k).
    destruct (dget k hn) as [[h kf']|]; [|done]. destruct HA as [Hk ->].
    rewrite kf_chain_step_graph; [|done|eapply Forall_impl; [exact Hf|simpl; lia]|done].
    split; [unfold step_graph; simpl; lia|done].
Qed.

Lemma segment_loop_refines ns s e ls : forall hn g A,
  store_ok g -> table_refines g hn A ->
  exists hn' g', segment_loop ns s e hn ls g = inr (hn', g') /\ store_ok g' /\
    table_refines g' hn' (fun k => abs_segment ns s e k (A k) ls).
Proof.
  induction ls as [|[lora info] ls IH]; intros hn g A Hok HA; [by exists hn, g|].
  destruct (hook_step_refines ns s e hn lora info g A Hok HA) as (hn1 & g1 & Hr1 & Hok1 & HA1).
  destruct (IH hn1 g1 _ Hok1 HA1) as (hn2 & g2 & Hr2 & Hok2 & HA2).
  exists hn2, g2. simpl. by rewrite (pym_bind_inr _ _ _ _ _ Hr1).
Qed.

Lemma schedule_loop_refines_from ns sched : forall s hn g A,
  store_ok g -> table_refines g hn A ->
  exists hn' g', schedule_loop ns s hn sched g = inr (hn', g') /\ store_ok g' /\
    table_refines g' hn' (fun k => abs_schedule ns s k (A k) sched).
Proof.
  induction sched as [|[e ls] sched IH]; intros s hn g A Hok HA; [by exists hn, g|].
  destruct (segment_loop_refines ns s e ls hn g A Hok HA) as (hn1 & g1 & Hr1 & Hok1 & HA1).
  destruct (IH e hn1 g1 _ Hok1 HA1) as (hn2 & g2 & Hr2 & Hok2 & HA2).
  exists hn2, g2. simpl. by rewrite (pym_bind_inr _ _ _ _ _ Hr1).
Qed.

(** * The abstract schedule never switches a LoRA off *)

Definition opt_shape (o : option chain) : Prop := forall c, o = Some c -> chain_shape c.

Lemma abs_hook_shape ns s e k acc l : opt_shape acc -> opt_shape (abs_hook ns s e k acc l).
Proof.
  destruct l as [lora info]. unfold abs_hook. intros Hacc.
  case_bool_decide; [done|]. destruct (lora_name_to_file lora); [|done].
  case_decide; [|done]. intros c [= <-]. unfold abs_entry.
  apply chain_shape_app; [|repeat constructor; by destruct (py_lt e scale); repeat constructor].
  destruct acc as [c|]; simpl; [by apply Hacc|].
  destruct (py_gt s 0%Z); [right; exists []; split; [done|constructor]|left; constructor].
Qed.

Lemma abs_schedule_shape ns sched : forall s k acc, opt_shape acc -> opt_shape (abs_schedule ns s k acc sched).
Proof.
  induction sched as [|[e ls] sched IH]; intros s k acc Hacc; simpl; [done|].
  apply IH. unfold abs_segment. revert acc Hacc.
  induction ls as [|l ls IHl]; intros acc Hacc; simpl; [done|]. by apply IHl, abs_hook_shape.
Qed.

Lemma store_ok_new_graph p : store_ok (new_graph p).
Proof. split; constructor. Qed.

Lemma table_refines_empty g : table_refines g [] (fun _ => None).
Proof. split; [constructor|done]. Qed.

(** An entry is added once and never removed. *)
Lemma abs_segment_Some ns s e k ls acc : is_Some acc -> is_Some (abs_segment ns s e k acc ls).
Proof.
  unfold abs_segment. revert acc. induction ls as [|[lora info] ls IH]; intros acc Hacc; simpl; [done|].
  apply IH. unfold abs_hook. case_bool_decide; [done|].
  destruct (lora_name_to_file lora); [|done]. case_decide; [by eexists|done].
Qed.

Lemma abs_schedule_Some ns sched : forall s k acc, is_Some acc -> is_Some (abs_schedule ns s k acc sched).
Proof. induction sched as [|[e ls] sched IH]; intros s k acc Hacc; simpl; [done|]. by apply IH, abs_segment_Some. Qed.

Lemma abs_segment_elem ns s e lora info ls acc :
  (lora, info) ∈ ls -> dget lora ns = None -> is_Some (lora_name_to_file lora) ->
  is_Some (abs_segment ns s e (key lora info) acc ls).
Proof.
  unfold abs_segment. revert acc. induction ls as [|[l i] ls IH]; intros acc Hin Hns [path Hp];
    [by apply elem_of_nil in Hin|]. simpl.
  apply elem_of_cons in Hin as [[= <- <-]|Hin]; [|by apply IH; eauto].
  apply abs_segment_Some. unfold abs_hook. rewrite Hns, Hp. simpl. by rewrite decide_True.
Qed.

Lemma abs_schedule_elem ns sched : forall s acc e ls lora info,
  (e, ls) ∈ sched -> (lora, info) ∈ ls -> dget lora ns = None -> is_Some (lora_name_to_file lora) ->
  is_Some (abs_schedule ns s (key lora info) acc sched).
Proof.
  induction sched as [|[e' ls'] sched IH]; intros s acc e ls lora info Hin Hl Hns Hp;
    [by apply elem_of_nil in Hin|]. simpl.
  apply elem_of_cons in Hin as [[= <- <-]|Hin]; [|by eapply IH].
  by apply abs_schedule_Some, abs_segment_elem.
Qed.

(** * The keyframe loop against its abstract schedule *)

(** C5: From any well-formed store and an empty [hook_nodes], the
    keyframe loop of [PCLazyLoraLoader.apply] (lines 56-102) runs to the
    end of the schedule without raising, keeps the store well formed, and
    leaves a [hook_nodes] whose every entry names a keyframe node whose
    [prev_hook_kf] chain is exactly the keyframe list [abs_schedule]
    computes for its key; keys [abs_schedule] has no chain for are
    absent. *)
Theorem schedule_loop_refines ns sched g :
  store_ok g ->
  exists hn g', schedule_loop ns 0%Z [] sched g = inr (hn, g') /\ store_ok g' /\
    table_refines g' hn (fun k => abs_schedule ns 0%Z k None sched).
Proof. intros Hok. apply schedule_loop_refines_from; [done|apply table_refines_empty]. Qed.

(** C4: Once on, never off: for every hook the keyframe loop emits, if
    its keyframe chain gives the LoRA strength 1.0 at some percent [p],
    it gives 1.0 at every later percent [q].  A LoRA scheduled for a
    segment that ends before 1.0 is not switched off after it. *)
Theorem schedule_loop_never_off ns sched g hn g' k h kf p q :
  store_ok g -> schedule_loop ns 0%Z [] sched g = inr (hn, g') ->
  dget k hn = Some (h, kf) -> (0 <= p <= q)%Z ->
  strength_at (kf_chain g' kf) p = scale -> strength_at (kf_chain g' kf) q = scale.
Proof.
  intros Hok Hr Hk Hpq.
  destruct (schedule_loop_refines_from ns sched 0%Z [] g _ Hok (table_refines_empty g))
    as (hn' & g'' & Hr' & _ & HA).
  rewrite Hr in Hr'. injection Hr' as <- <-. destruct HA as [_ HA]. specialize (HA k). rewrite Hk in HA.
  destruct HA as [_ HA]. apply strength_never_off; [|done].
  apply (abs_schedule_shape ns sched 0%Z k None); [done|]. exact HA.
Qed.

(** C16: Every LoRA a segment of the schedule names, that is not promoted
    to a static [LoraLoader] and whose file resolves, ends up with an
    entry of [hook_nodes] under its key, and so with a hook. *)
Theorem schedule_loop_hooks_scheduled ns sched g hn g' e ls lora info :
  store_ok g -> schedule_loop ns 0%Z [] sched g = inr (hn, g') ->
  (e, ls) ∈ sched -> (lora, info) ∈ ls -> dget lora ns = None -> is_Some (lora_name_to_file lora) ->
  is_Some (dget (key lora info) hn).
Proof.
  intros Hok Hr Hin Hl Hns Hp.
  destruct (schedule_loop_refines_from ns sched 0%Z [] g _ Hok (table_refines_empty g))
    as (hn' & g'' & Hr' & _ & HA).
  rewrite Hr in Hr'. injection Hr' as <- <-. destruct HA as [_ HA]. specialize (HA (key lora info)).
  destruct (dget (key lora info) hn) as [[]|]; [by eexists|].
  destruct (abs_schedule_elem ns sched 0%Z None e ls lora info Hin Hl Hns Hp) as [c Hc].
  simpl in HA. congruence.
Qed.

(** C9: The key [f"{lora}-{weight}-{weight_clip}"] is not injective
    (["a-"] at (1.0, 2.0) and ["a"] at (-1.0, 2.0) both give
    ["a--1.0-2.0"]), and a collision silently merges two LoRAs: when the
    key of a dynamic, resolved LoRA equals the key of an entry already in
    [hook_nodes], its step appends only [CreateHookKeyframe] nodes, and
    its entry keeps the earlier LoRA's [CreateHookLora] node, so its own
    file and weights are never loaded. *)
Theorem hook_step_key_collision ns s e hn lora1 info1 lora2 info2 path h kf g hn' g' :
  store_ok g -> dget lora2 ns = None -> lora_name_to_file lora2 = Some path ->
  key lora1 info1 = key lora2 info2 -> dget (key lora1 info1) hn = Some (h, kf) ->
  hook_step ns s e hn lora2 info2 g = inr (hn', g') ->
  exists new kf', g' = step_graph g new /\
    Forall (fun n => class_type n = "CreateHookKeyframe") new /\
    dget (key lora2 info2) hn' = Some (h, kf').
Proof.
  intros Hok Hns Hp Hk Hd Hrun.
  rewrite (hook_step_run ns s e hn lora2 info2 path g (ok_ids _ Hok) (ok_start_pct _ Hok) Hns Hp),
    <- Hk, Hd in Hrun.
  unfold step_nodes, step_head in Hrun. cbn zeta in Hrun.
  destruct (py_lt e scale); injection Hrun as <- <-;
    (eexists _, _; split; [reflexivity|split; [forall_each; reflexivity|rewrite <- Hk; apply dget_dset_eq]]).
Qed.

End hook_chains.

(** * Instances at concrete inputs *)

(** A resolver that finds every LoRA file. *)
Definition same_file : LoraResolver := fun n => Some n.

(** LoRA [a] scheduled for the first half of sampling only. *)
Definition half_sched : consolidated := [(5000%Z, [("a", mk_info 10000%Z 10000%Z)]); (10000%Z, [])].

Definition half_run : hook_table * graph :=
  match @schedule_loop same_file (find_nonscheduled_loras half_sched) 0%Z [] half_sched (new_graph "p") with
  | inr r => r
  | inl _ => ([], new_graph "p")
  end.

Lemma half_run_eq :
  @schedule_loop same_file (find_nonscheduled_loras half_sched) 0%Z [] half_sched (new_graph "p") = inr half_run.
Proof. vm_compute. reflexivity. Qed.

Lemma schedule_loop_refines_witness :
  store_ok (new_graph "p") /\
  exists hn g', @schedule_loop same_file (find_nonscheduled_loras half_sched) 0%Z [] half_sched (new_graph "p") = inr (hn, g') /\
    store_ok g' /\ table_refines g' hn (fun k => @abs_schedule same_file (find_nonscheduled_loras half_sched) 0%Z k None half_sched).
Proof.
  pose proof (store_ok_new_graph "p") as Hok. split; [exact Hok|].
  exact (@schedule_loop_refines same_file (find_nonscheduled_loras half_sched) half_sched (new_graph "p") Hok).
Defined.

(** The LoRA is still at 1.0 at 75%, after its segment ended at 50%. *)
Lemma schedule_loop_never_off_witness :
  store_ok (new_graph "p") /\ dget (key "a" (mk_info 10000%Z 10000%Z)) half_run.1 = Some (1, 3) /\
  (0 <= 2500 <= 7500)%Z /\ strength_at (kf_chain half_run.2 3) 2500%Z = scale /\
  strength_at (kf_chain half_run.2 3) 7500%Z = scale.
Proof.
  pose proof (store_ok_new_graph "p") as Hok.
  assert (Hk : dget (key "a" (mk_info 10000%Z 10000%Z)) half_run.1 = Some (1, 3)) by (vm_compute; reflexivity).
  assert (Hpq : (0 <= 2500 <= 7500)%Z) by lia.
  assert (Hp : strength_at (kf_chain half_run.2 3) 2500%Z = scale) by (vm_compute; reflexivity).
  do 4 (split; [assumption|]).
  exact (@schedule_loop_never_off same_file _ half_sched (new_graph "p") half_run.1 half_run.2 _ 1 3
           2500%Z 7500%Z Hok half_run_eq Hk Hpq Hp).
Defined.

Lemma schedule_loop_hooks_scheduled_witness :
  store_ok (new_graph "p") /\ (5000%Z, [("a", mk_info 10000%Z 10000%Z)]) ∈ half_sched /\
  ("a", mk_info 10000%Z 10000%Z) ∈ [("a", mk_info 10000%Z 10000%Z)] /\
  dget "a" (find_nonscheduled_loras half_sched) = None /\ is_Some (same_file "a") /\
  is_Some (dget (key "a" (mk_info 10000%Z 10000%Z)) half_run.1).
Proof.
  pose proof (store_ok_new_graph "p") as Hok.
  assert (Hin : (5000%Z, [("a", mk_info 10000%Z 10000%Z)]) ∈ half_sched) by constructor.
  assert (Hl : ("a", mk_info 10000%Z 10000%Z) ∈ [("a", mk_info 10000%Z 10000%Z)]) by constructor.
  assert (Hns : dget "a" (find_nonscheduled_loras half_sched) = None) by (vm_compute; reflexivity).
  assert (Hp : is_Some (same_file "a")) by (eexists; reflexivity).
  do 5 (split; [assumption|]).
  exact (@schedule_loop_hooks_scheduled same_file _ half_sched (new_graph "p") half_run.1 half_run.2 _ _ _ _
           Hok half_run_eq Hin Hl Hns Hp).
Defined.

(** The collision of C22: a chain for ["a-"] at (1.0, 2.0) is in
    [hook_nodes] when ["a"] at (-1.0, 2.0) is reached. *)
Definition collide_info1 : lora_info := mk_info 10000%Z 20000%Z.
Definition collide_info2 : lora_info := mk_info (-10000)%Z 20000%Z.
Definition collide_table : hook_table := [(key "a-" collide_info1, (1, 2))].
Definition collide_graph : graph :=
  mk_graph "p" [mk_node 1 "CreateHookLora" [("lora_name", VStr "a-")];
                mk_node 2 "CreateHookKeyframe" [("strength_mult", VFloat scale); ("start_percent", VFloat 0%Z)]] 3.

Lemma hook_step_key_collision_witness :
  store_ok collide_graph /\ key "a-" collide_info1 = key "a" collide_info2 /\
  exists hn' g', @hook_step same_file [] 5000%Z scale collide_table "a" collide_info2 collide_graph = inr (hn', g') /\
    exists new kf', g' = step_graph collide_graph new /\
      Forall (fun n => class_type n = "CreateHookKeyframe") new /\
      dget (key "a" collide_info2) hn' = Some (1, kf').
Proof.
  assert (Hok : store_ok collide_graph).
  { split; [unfold ids_below; simpl; repeat constructor|unfold no_input; repeat constructor|].
    unfold prev_links_below. repeat constructor; simpl; discriminate. }
  assert (Hk : key "a-" collide_info1 = key "a" collide_info2) by reflexivity.
  split; [exact Hok|]. split; [exact Hk|].
  destruct (@hook_step same_file [] 5000%Z scale collide_table "a" collide_info2 collide_graph)
    as [err|[hn' g']] eqn:E; [vm_compute in E; discriminate|].
  exists hn', g'. split; [reflexivity|].
  exact (@hook_step_key_collision same_file [] 5000%Z scale collide_table "a-" collide_info1 "a" collide_info2
           "a" 1 2 collide_graph hn' g' Hok eq_refl eq_refl Hk eq_refl E).
Defined.

End HookChains.
