(* ===== verification/HandlerOutput.v ===== *)
(** What the two nodes return: the exceptions [PCLazyTextEncode.apply]
    raises and exactly when, and that [PCLazyLoraLoader.apply] raises
    only what the schedule parser raises; the well-formedness of node ids
    ([ids_wf]) and the generic fact that a store property kept by
    [graph.node] and [set_input] holds after every run of either
    compiler. *)

From stdpp Require Import base list strings decidable sets.
From Stdlib Require Import ZArith.
From S2P Require Import Prelude PyFloat GraphBuilder Schedule LazyTextEncode LazyLoraLoader.

Local Open Scope list_scope.

Module HandlerOutput.
Import PyFloat GraphBuilder Schedule.

(** * Distinct node ids *)

(** Node ids are distinct and below the counter. *)
Definition ids_wf (g : graph) : Prop := NoDup (map nid (nodes g)) /\ ids_below g.

Lemma keeps_ids_wf_gb_node ct : keeps ids_wf (gb_node ct).
Proof.
  intros g i g' [Hnd Hb]. unfold gb_node. unfold ids_below in *.
  destruct (find_node _ _); intros [= <- <-]; split; simpl.
  - done.
  - eapply Forall_impl; [done|]. simpl. lia.
  - rewrite map_app. apply NoDup_app. split; [done|]. split; [|apply NoDup_singleton].
    intros x Hx Hy. apply list_elem_of_singleton in Hy as ->.
    exact (ids_below_notin g (id_gen g) Hb (le_n _) Hx).
  - apply Forall_app. split; [eapply Forall_impl; [done|]; simpl; lia|].
    constructor; [simpl; lia|constructor].
Qed.

Lemma map_nid_update_node h k v ns : map nid (update_node h (set_field k v) ns) = map nid ns.
Proof. induction ns as [|n ns IH]; simpl; [done|]. case_decide; simpl; by f_equal. Qed.

Lemma keeps_ids_wf_set_input h k v : keeps ids_wf (set_input h k v).
Proof.
  intros g [] g' [Hnd Hb] [= <-]. unfold ids_wf, ids_below in *. simpl.
  rewrite map_nid_update_node. split; [done|].
  rewrite Forall_forall in *. intros n Hn.
  apply list_elem_of_fmap in Hn as (n' & -> & Hn'). specialize (Hb n' Hn').
  case_decide; simpl; lia.
Qed.

Lemma ids_wf_new_graph p : ids_wf (new_graph p).
Proof. split; constructor. Qed.

(** * Properties every run of the two compilers keeps

    Both compilers touch the store only through [graph.node] and
    [set_input]: a property those two keep holds after every run. *)

Section builder_programs.
Variable P : graph -> Prop.
Hypothesis P_gb_node : forall ct, keeps P (gb_node ct).
Hypothesis P_set_input : forall h k v, keeps P (set_input h k v).
#[local] Hint Resolve P_gb_node P_set_input : pc.

Section lora.
Context `{LoraResolver}.
Import LazyLoraLoader.

Lemma keeps_lora_hook_step ns s e hn lora info : keeps P (hook_step ns s e hn lora info).
Proof. unfold hook_step, hook_entry, activation_keyframe, fresh_keyframe. keeps_split. Qed.
#[local] Hint Resolve keeps_lora_hook_step : pc.

Lemma keeps_lora_schedule_loop ns s hn sched : keeps P (schedule_loop ns s hn sched).
Proof.
  revert s hn. induction sched as [|[e ls] rest IH]; intros s hn; simpl; keeps_split.
  revert hn. induction ls as [|[l i] ls IHl]; intros hn; simpl; keeps_split.
Qed.

Lemma keeps_lora_static_loop model clip ns : keeps P (static_loop model clip ns).
Proof. revert model clip. induction ns as [|[l i] ns IH]; intros m c; simpl; keeps_split. Qed.

Lemma keeps_lora_wrap_hooks es : keeps P (wrap_hooks es).
Proof. induction es as [|[h kf] es IH]; simpl; keeps_split. Qed.

Lemma keeps_lora_combine_loop r hs : keeps P (combine_loop r hs).
Proof. revert r. induction hs as [|h hs IH]; intros r; simpl; keeps_split. Qed.

#[local] Hint Resolve keeps_lora_static_loop keeps_lora_schedule_loop keeps_lora_wrap_hooks
  keeps_lora_combine_loop : pc.

Lemma keeps_lora_graph model clip apply_hooks sched : keeps P (lora_graph model clip apply_hooks sched).
Proof. unfold lora_graph, combine_hooks, clip_hooks. keeps_split. Qed.
End lora.

Section text.
Context `{FunctionExtractor}.
Import LazyTextEncode.

Lemma keeps_encode_segment clip s e p : keeps P (encode_segment clip s e p).
Proof. unfold encode_segment. keeps_split. Qed.
#[local] Hint Resolve keeps_encode_segment : pc.

Lemma keeps_encode_loop clip s sched : keeps P (encode_loop clip s sched).
Proof. revert s. induction sched as [|[e p] sched IH]; intros; simpl; keeps_split. Qed.

Lemma keeps_conditioning_fold n os : keeps P (conditioning_fold n os).
Proof. revert n. induction os as [|o os IH]; intros n; simpl; keeps_split. Qed.

#[local] Hint Resolve keeps_encode_loop keeps_conditioning_fold : pc.

Lemma keeps_encode_schedule clip sched : keeps P (encode_schedule clip sched).
Proof. unfold encode_schedule, py_index. keeps_split. Qed.
End text.
End builder_programs.

(** * [PCLazyLoraLoader] never raises *)

Section lora_total.
Context `{LoraResolver}.
Import LazyLoraLoader.

Lemma never_raises_hook_step ns s e hn lora info : never_raises (hook_step ns s e hn lora info).
Proof. unfold hook_step, hook_entry, activation_keyframe, fresh_keyframe. total_split. Qed.
#[local] Hint Resolve never_raises_hook_step : pc.

Lemma never_raises_lora_graph model clip apply_hooks sched :
  never_raises (lora_graph model clip apply_hooks sched).
Proof.
  assert (Hs : forall model clip ns, never_raises (static_loop model clip ns))
    by (intros m c ns; revert m c; induction ns as [|[l i] ns IH]; intros m c; simpl; total_split).
  assert (Hl : forall ns s hn, never_raises (schedule_loop ns s hn sched)).
  { induction sched as [|[e ls] rest IH]; intros ns s hn; simpl; total_split.
    revert hn. induction ls as [|[l i] ls IHl]; intros hn; simpl; total_split. }
  assert (Hw : forall es, never_raises (wrap_hooks es))
    by (induction es as [|[h kf] es IH]; simpl; total_split).
  assert (Hc : forall r hs, never_raises (combine_loop r hs))
    by (intros r hs; revert r; induction hs as [|h hs IH]; intros r; simpl; total_split).
  unfold lora_graph, combine_hooks, clip_hooks. total_split.
Qed.

(** The graph compilation of lines 34-128 never raises: the only
    exception [PCLazyLoraLoader.apply] can raise is the parser's. *)
Lemma lora_apply_parse_only `{ScheduleSource} model clip text apply_hooks unique_id err :
  LazyLoraLoader.apply model clip text apply_hooks unique_id = inl err <-> consolidated_loras text = inl err.
Proof.
  unfold LazyLoraLoader.apply. destruct (consolidated_loras text) as [e|sched]; [split; congruence|].
  destruct (never_raises_lora_graph model clip apply_hooks sched
              (new_graph (LazyLoraLoader.builder_prefix unique_id))) as (r & g & ->).
  split; discriminate.
Qed.
End lora_total.

(** * When [PCLazyTextEncode] raises *)

Section text_errors.
Context `{FunctionExtractor}.
Import LazyTextEncode.

(** A segment whose [NODE(...)] annotation lacks the class or the
    parameter name: [classnames[0][0]] or [classnames[0][1]] raises. *)
Definition bad_annotation (prompt : string) : bool :=
  match node_class (get_function prompt "NODE" ["PCTextEncode"; "text"]).2 with
  | inl _ => true
  | inr _ => false
  end.

Lemma node_class_inl cns err : node_class cns = inl err -> err = IndexError.
Proof.
  unfold node_class. destruct cns as [|c0 cns]; [done|].
  by destruct (c0 !! 0), (c0 !! 1); intros [= <-].
Qed.

Lemma text_nodes_inl clip sched : forall i start err,
  text_nodes clip i start sched = inl err <->
  err = IndexError /\ Exists (fun seg => bad_annotation seg.2 = true) sched.
Proof.
  induction sched as [|[e prompt] rest IH]; intros i start err; simpl.
  { split; [done|]. intros [_ Hx]. by apply Exists_nil in Hx. }
  rewrite Exists_cons. unfold bad_annotation at 1. simpl.
  destruct (get_function _ _ _) as [p cns]. simpl.
  destruct (node_class cns) as [err'|[cn pn]] eqn:Hc.
  - apply node_class_inl in Hc. subst err'. naive_solver.
  - specialize (IH (S (S i)) e err). destruct (text_nodes _ _ _ _); naive_solver.
Qed.

Lemma encode_schedule_inl clip sched p err :
  encode_schedule clip sched (new_graph p) = inl err <->
  err = IndexError /\ (sched = [] \/ Exists (fun seg => bad_annotation seg.2 = true) sched).
Proof.
  unfold encode_schedule. cbv [mbind pym_bind]. rewrite encode_loop_run by constructor. simpl.
  destruct (text_nodes clip 1 0%Z sched) as [err'|ns] eqn:Hn.
  - pose proof (proj1 (text_nodes_inl _ _ _ _ _) Hn) as [-> Hx]. naive_solver.
  - assert (Hx : ~ Exists (fun seg => bad_annotation seg.2 = true) sched)
      by (intros Hx; assert (Hc : text_nodes clip 1 0%Z sched = inl IndexError)
            by (by apply text_nodes_inl); congruence).
    destruct sched as [|seg rest]; [cbv [py_index raise]; simpl; naive_solver|].
    cbv [py_index mret pym_ret]. simpl. rewrite conditioning_fold_run.
    + cbv [mret pym_ret]. naive_solver.
    + destruct (text_nodes_ids _ _ _ _ _ Hn) as [_ Hids].
      unfold ids_below. simpl. eapply Forall_impl; [done|]. simpl. lia.
Qed.
(** C13: [PCLazyTextEncode.apply] raises exactly when the parser raises
    (its exception is propagated, line 146), or the parsed schedule is
    empty ([nodes[0]], line 168) or a segment's [NODE(...)] annotation
    lacks a field (lines 157-158), the exception then being
    [IndexError]; on every other input it returns a result. *)
Theorem text_apply_error `{ScheduleSource} clip text unique_id err :
  LazyTextEncode.apply clip text unique_id = inl err <->
  text_segments text = inl err \/
  exists sched, text_segments text = inr sched /\ err = IndexError /\
    (sched = [] \/ Exists (fun seg => bad_annotation seg.2 = true) sched).
Proof.
  unfold LazyTextEncode.apply. destruct (text_segments text) as [e|sched]; [naive_solver|].
  pose proof (encode_schedule_inl clip sched (LazyTextEncode.builder_prefix unique_id) err).
  destruct (encode_schedule _ _ _) as [|[]]; naive_solver.
Qed.

End text_errors.

(** * Instances at concrete inputs *)

(** A resolver that finds every LoRA file, and an extractor that finds no
    annotation. *)
Definition any_file : LoraResolver := fun n => Some n.
Definition no_annotation : FunctionExtractor := fun p _ _ => (p, []).

(** Every text is scheduled as LoRA [a] for the first half, and as the
    prompt ["cat"] then ["dog"]. *)
Definition two_halves : ScheduleSource := {|
  text_segments := fun _ => inr [(5000%Z, "cat"); (10000%Z, "dog")];
  consolidated_loras := fun _ => inr [(5000%Z, [("a", mk_info 10000%Z 10000%Z)]); (10000%Z, [])] |}.

End HandlerOutput.
