(* ===== verification/Registry.v ===== *)
(** The node declarations ComfyUI reads from [nodes_lazy.py] (lines 13-29
    and 131-143: [INPUT_TYPES], [RETURN_TYPES], [OUTPUT_TOOLTIPS],
    [CATEGORY], [FUNCTION]; lines 178-186: [NODE_CLASS_MAPPINGS] and
    [NODE_DISPLAY_NAME_MAPPINGS]) and the socket types of the host node
    classes the compilers instantiate.  The file proves that what each
    [apply] returns has the types its [RETURN_TYPES] declares: every
    returned value is an input of the declared type, or an output slot of
    a node of the expanded graph whose class produces that type. *)

From stdpp Require Import base list strings decidable sets.
From Stdlib Require Import ZArith.
From S2P Require Import Prelude PyFloat GraphBuilder Schedule LazyTextEncode LazyLoraLoader HandlerOutput.

Local Open Scope list_scope.

Module Registry.
Import PyFloat GraphBuilder Schedule HandlerOutput.

(** * The declarations *)

(** ComfyUI socket types, as named in the declarations. *)
Inductive socket := MODEL | CLIP | HOOKS | HOOK_KEYFRAMES | CONDITIONING | STRING | BOOLEAN | UNIQUE_ID.

#[export] Instance socket_eq_dec : EqDecision socket.
Proof. solve_decision. Defined.

(** An input: its name, socket type and options ([{"multiline": True}],
    [{"rawLink": True}], [{"default": True}]). *)
Definition input_decl := (string * socket * list (string * bool))%type.

Record node_decl := mk_decl {
  required : list input_decl;
  hidden : list (string * socket);
  return_types : list socket;
  output_tooltips : list string;
  category : string;
  function : string }.

(** Lines 13-29. *)
Definition PCLazyLoraLoader : node_decl := {|
  required := [("text", STRING, [("multiline", true)]); ("model", MODEL, [("rawLink", true)]);
               ("clip", CLIP, [("rawLink", true)]); ("apply_hooks", BOOLEAN, [("default", true)])];
  hidden := [("unique_id", UNIQUE_ID)];
  return_types := [MODEL; CLIP; HOOKS];
  output_tooltips := ["Returns a model and clip with LoRAs scheduled"];
  category := "promptcontrol";
  function := "apply" |}.

(** Lines 131-143. *)
Definition PCLazyTextEncode : node_decl := {|
  required := [("clip", CLIP, [("rawLink", true)]); ("text", STRING, [("multiline", true)])];
  hidden := [("unique_id", UNIQUE_ID)];
  return_types := [CONDITIONING];
  output_tooltips := ["A fully encoded and scheduled conditioning"];
  category := "promptcontrol";
  function := "apply" |}.

(** Lines 178-186. *)
Definition NODE_CLASS_MAPPINGS : list (string * node_decl) :=
  [("PCLazyTextEncode", PCLazyTextEncode); ("PCLazyLoraLoader", PCLazyLoraLoader)].

Definition NODE_DISPLAY_NAME_MAPPINGS : list (string * string) :=
  [("PCLazyTextEncode", "Encode prompt w/ scheduling (Lazy)");
   ("PCLazyLoraLoader", "Load LoRAs from prompt w/ scheduling (Lazy)")].

(** The parameter names of each [apply] after [self]. *)
Definition apply_params : list (string * list string) :=
  [("PCLazyTextEncode", ["clip"; "text"; "unique_id"]);
   ("PCLazyLoraLoader", ["model"; "clip"; "text"; "apply_hooks"; "unique_id"])].

(** The [RETURN_TYPES] of the host classes the compilers create (ComfyUI
    core nodes, outside this repository; [PCTextEncode] is the default
    content node of this package). *)
Definition class_outputs (ct : string) : list socket :=
  match ct with
  | "LoraLoader" => [MODEL; CLIP]
  | "CreateHookLora" => [HOOKS]
  | "CreateHookKeyframe" => [HOOK_KEYFRAMES]
  | "SetHookKeyframes" => [HOOKS]
  | "CombineHooks2" => [HOOKS]
  | "SetClipHooks" => [CLIP]
  | "PCTextEncode" => [CONDITIONING]
  | "ConditioningSetTimestepRange" => [CONDITIONING]
  | "ConditioningCombine" => [CONDITIONING]
  | _ => []
  end%string.

(** * Types of values in a store *)

Definition class_of (g : graph) (h : nat) : option string := class_type <$> find_node (nodes g) h.

Definition link_type (g : graph) (v : value) : option socket :=
  match v with
  | VLink h s => ct ← class_of g h; class_outputs ct !! s
  | _ => None
  end.

(** [v] has type [t]: an input of that type ([env]), or an output slot
    of that type. *)
Definition typed (env : list (value * socket)) (g : graph) (v : value) (t : socket) : Prop :=
  (v, t) ∈ env \/ link_type g v = Some t.

(** What [apply] may return for a declared type: a value of that type;
    for [HOOKS] also [None] (spec section 7: no dynamic LoRA gives a null
    composite hook). *)
Definition returns_ok (env : list (value * socket)) (g : graph) (v : value) (t : socket) : Prop :=
  typed env g v t \/ (t = HOOKS /\ v = VNone).

Create HintDb registry discriminated.

(** * Class and type facts kept by the builder *)

Lemma keeps_class_of_set_input h ct h' k v : keeps (fun g => class_of g h = Some ct) (set_input h' k v).
Proof.
  intros g [] g' Hg [= <-]. unfold class_of in *. simpl. rewrite find_node_update_node.
  destruct (find_node (nodes g) h); simpl in *; [|done]. by case_decide.
Qed.

Lemma keeps_class_of_gb_node h ct ct' : keeps (fun g => class_of g h = Some ct) (gb_node ct').
Proof.
  intros g i g' Hg. unfold gb_node. destruct (find_node _ _); intros [= <- <-]; [done|].
  unfold class_of in *. simpl. rewrite find_node_app. by destruct (find_node (nodes g) h).
Qed.

Lemma keeps_typed {A} env v t (m : PyM graph A) :
  (forall h ct, keeps (fun g => class_of g h = Some ct) m) -> keeps (fun g => typed env g v t) m.
Proof.
  intros Hc g a g' [Hin|Hg] Hm; [by left|right]. destruct v as [| | | |h s|]; try done. simpl in *.
  destruct (class_of g h) eqn:E; [|done]. by rewrite (Hc _ _ _ _ _ E Hm).
Qed.

#[export] Hint Resolve keeps_class_of_set_input keeps_class_of_gb_node keeps_typed
  keeps_ids_wf_gb_node keeps_ids_wf_set_input : registry.

(** [graph.node(ct)] returns a node of class [ct]. *)
Lemma hoare_gb_node ct (R : graph -> Prop) :
  keeps R (gb_node ct) ->
  hoare (fun g => ids_wf g /\ R g) (gb_node ct) (fun h g => ids_wf g /\ R g /\ class_of g h = Some ct).
Proof.
  intros HR g h g' [Hw Hr] E. pose proof E as E'.
  split; [eapply keeps_ids_wf_gb_node; eauto|]. split; [eauto|].
  rewrite gb_node_run in E' by apply Hw. injection E' as <- <-. unfold class_of. simpl.
  rewrite find_node_app, find_node_None by (apply ids_below_notin; [apply Hw|lia]).
  simpl. by rewrite decide_True.
Qed.

Lemma hoare_bind_gb_node {B} ct (R : graph -> Prop) (k : nat -> PyM graph B) Q :
  keeps R (gb_node ct) ->
  (forall h, hoare (fun g => ids_wf g /\ R g /\ class_of g h = Some ct) (k h) Q) ->
  hoare (fun g => ids_wf g /\ R g) (gb_node ct ≫= k) Q.
Proof. intros HR Hk. eapply hoare_bind; [apply hoare_gb_node, HR|exact Hk]. Qed.

Lemma keeps_returns_ok {A} env v t (m : PyM graph A) :
  (forall h ct, keeps (fun g => class_of g h = Some ct) m) -> keeps (fun g => returns_ok env g v t) m.
Proof. intros Hc g a g' [Hv|Hv] Hm; [left; by eapply keeps_typed|by right]. Qed.

(** Prove that a builder call keeps a conjunction of facts. *)
Ltac kept :=
  repeat match goal with
  | |- keeps (fun _ => _ /\ _) _ => apply keeps_and
  | |- keeps (fun g => typed _ g _ _) _ => apply keeps_typed; intros ? ?
  | |- keeps (fun g => returns_ok _ g _ _) _ => apply keeps_returns_ok; intros ? ?
  end;
  eauto with pc registry.

(** Carry a kept invariant over a builder call. *)
Ltac frame := apply hoare_bind_keeps; [kept | intros ?].

(** Allocate a node, remembering its class. *)
Ltac alloc h := apply hoare_bind_gb_node; [kept | intros h].

Lemma typed_out env g h ct s t : class_of g h = Some ct -> class_outputs ct !! s = Some t -> typed env g (out h s) t.
Proof. intros Hc Ht. right. simpl. by rewrite Hc. Qed.

(** * The values [PCLazyLoraLoader.apply] returns *)

Section lora_typing.
Context `{LoraResolver}.
Import LazyLoraLoader.
Variable env : list (value * socket).

Lemma static_loop_typed ns : forall model clip,
  hoare (fun g => ids_wf g /\ (typed env g model MODEL /\ typed env g clip CLIP)) (static_loop model clip ns)
        (fun mc g => ids_wf g /\ (typed env g mc.1 MODEL /\ typed env g mc.2 CLIP)).
Proof.
  induction ns as [|[lora info] ns IH]; intros model clip; simpl; [by apply hoare_ret|].
  destruct (lora_name_to_file lora) as [path|]; [|apply IH].
  alloc loader. do 5 frame.
  eapply hoare_weaken; [apply IH| |done]. intros g (Hw & _ & Hc).
  split; [done|]. split; by eapply typed_out.
Qed.

Section framed.
Variable R : graph -> Prop.
Hypothesis R_gb_node : forall ct, keeps R (gb_node ct).
Hypothesis R_set_input : forall h k v, keeps R (set_input h k v).

Lemma wrap_hooks_classes es :
  hoare (fun g => ids_wf g /\ R g) (wrap_hooks es)
        (fun hs g => ids_wf g /\ R g /\ Forall (fun h => class_of g h = Some "SetHookKeyframes") hs).
Proof.
  revert R R_gb_node R_set_input.
  induction es as [|[h kf] es IH]; intros R HRn HRs; simpl; [apply hoare_ret; naive_solver|].
  alloc n. do 2 frame.
  apply (hoare_bind _ (fun ns g => ids_wf g /\ (R g /\ class_of g n = Some "SetHookKeyframes") /\
                         Forall (fun h => class_of g h = Some "SetHookKeyframes") ns)).
  - apply IH; intros; kept.
  - intros ns. apply hoare_ret. intros g (Hw & [Hr Hn] & Hns). split; [done|split; [done|by constructor]].
Qed.

Lemma combine_loop_typed r hs :
  hoare (fun g => ids_wf g /\ R g /\ typed env g (out r 0) HOOKS) (combine_loop r hs)
        (fun r' g => ids_wf g /\ R g /\ typed env g (out r' 0) HOOKS).
Proof.
  revert r. induction hs as [|h hs IH]; intros r; simpl; [by apply hoare_ret|].
  apply (hoare_pre (fun g => ids_wf g /\ (R g /\ typed env g (out r 0) HOOKS))); [|naive_solver].
  alloc n. do 2 frame.
  eapply hoare_weaken; [apply IH| |done]. intros g (Hw & [Hr _] & Hn).
  split; [done|split; [done|by eapply typed_out]].
Qed.

Lemma clip_hooks_typed apply_hooks clip res :
  hoare (fun g => ids_wf g /\ R g /\ typed env g clip CLIP) (clip_hooks apply_hooks clip res)
        (fun c g => ids_wf g /\ R g /\ typed env g c CLIP).
Proof.
  unfold clip_hooks. destruct apply_hooks; [|by apply hoare_ret].
  apply (hoare_pre (fun g => ids_wf g /\ (R g /\ typed env g clip CLIP))); [|naive_solver].
  alloc n. do 4 frame. apply hoare_ret. intros g (Hw & [Hr _] & Hn).
  split; [done|split; [done|by eapply typed_out]].
Qed.
Lemma combine_hooks_typed hooks :
  hoare (fun g => ids_wf g /\ R g /\ Forall (fun h => class_of g h = Some "SetHookKeyframes") hooks)
        (combine_hooks hooks) (fun res g => ids_wf g /\ R g /\ returns_ok env g res HOOKS).
Proof.
  unfold combine_hooks. destruct hooks as [|h0 hs].
  { apply hoare_ret. intros g (Hw & Hr & _). split; [done|split; [done|by right]]. }
  apply (hoare_bind _ (fun r' g => ids_wf g /\ R g /\ typed env g (out r' 0) HOOKS)).
  - eapply hoare_pre; [apply combine_loop_typed|]. intros g (Hw & Hr & Hh%Forall_cons).
    split; [done|split; [done|by eapply typed_out; [apply Hh|]]].
  - intros r'. apply hoare_ret. intros g (Hw & Hr & Ht). split; [done|split; [done|by left]].
Qed.
End framed.

(** The three results of the LoRA compiler have the types [RETURN_TYPES]
    declares, relative to the inputs [model] and [clip]. *)
Lemma lora_graph_typed model clip apply_hooks sched g g' m c r :
  ids_wf g -> typed env g model MODEL -> typed env g clip CLIP ->
  lora_graph model clip apply_hooks sched g = inr ((m, c, r), g') ->
  ids_wf g' /\ typed env g' m MODEL /\ typed env g' c CLIP /\ returns_ok env g' r HOOKS.
Proof.
  intros Hw Hm Hc E. unfold lora_graph in E.
  apply pym_bind_inr_inv in E as ([m1 c1] & g1 & E1 & E).
  destruct (static_loop_typed _ model clip g _ _ (conj Hw (conj Hm Hc)) E1) as (Hw1 & Hm1 & Hc1).
  simpl in *. apply pym_bind_inr_inv in E as (hn & g2 & E2 & E).
  assert (Hk : keeps (fun g => ids_wf g /\ (typed env g m1 MODEL /\ typed env g c1 CLIP))
                     (schedule_loop (find_nonscheduled_loras sched) 0%Z [] sched))
    by (apply keeps_lora_schedule_loop; intros; kept).
  pose proof (Hk _ _ _ (conj Hw1 (conj Hm1 Hc1)) E2) as (Hw2 & Hm2 & Hc2).
  apply pym_bind_inr_inv in E as (hs & g3 & E3 & E).
  destruct (wrap_hooks_classes (fun g => typed env g m1 MODEL /\ typed env g c1 CLIP)
              ltac:(intros; kept) ltac:(intros; kept) _ _ _ _ (conj Hw2 (conj Hm2 Hc2)) E3)
    as (Hw3 & [Hm3 Hc3] & Hhs).
  apply pym_bind_inr_inv in E as (res & g4 & E4 & E).
  destruct (combine_hooks_typed (fun g => typed env g m1 MODEL /\ typed env g c1 CLIP)
              ltac:(intros; kept) ltac:(intros; kept) _ _ _ _ (conj Hw3 (conj (conj Hm3 Hc3) Hhs)) E4)
    as (Hw4 & [Hm4 Hc4] & Hr4).
  apply pym_bind_inr_inv in E as (c2 & g5 & E5 & E).
  destruct (clip_hooks_typed (fun g => typed env g m1 MODEL /\ returns_ok env g res HOOKS)
              ltac:(intros; kept) ltac:(intros; kept) _ _ _ _ _ _ (conj Hw4 (conj (conj Hm4 Hr4) Hc4)) E5)
    as (Hw5 & [Hm5 Hr5] & Hc5).
  injection E as <- <- <- <-. done.
Qed.

End lora_typing.

(** C14: [PCLazyLoraLoader.apply]'s [(model, clip, res)] has the types
    [RETURN_TYPES = ("MODEL", "CLIP", "HOOKS")]. *)
Theorem lora_apply_typed `{LoraResolver} `{ScheduleSource} model clip text apply_hooks unique_id m c r exp :
  LazyLoraLoader.apply model clip text apply_hooks unique_id = inr (m, c, r, exp) ->
  exists g, finalize g = exp /\
    Forall2 (returns_ok [(model, MODEL); (clip, CLIP)] g) [m; c; r] (return_types PCLazyLoraLoader).
Proof.
  unfold LazyLoraLoader.apply. destruct (consolidated_loras text) as [|sched]; [done|]. destruct (LazyLoraLoader.lora_graph _ _ _ _ _) as [|[[[m' c'] r'] g]] eqn:E; [done|].
  intros [= <- <- <- <-]. exists g. split; [done|].
  destruct (lora_graph_typed [(model, MODEL); (clip, CLIP)] model clip apply_hooks _ _ g m' c' r' (ids_wf_new_graph _)
              ltac:(left; set_solver) ltac:(left; set_solver) E) as (_ & Hm & Hc & Hr).
  constructor; [by left|]. constructor; [by left|]. constructor; [done|constructor].
Qed.

(** * The value [PCLazyTextEncode.apply] returns *)

Section text_typing.
Context `{FunctionExtractor}.
Import LazyTextEncode.
Variable env : list (value * socket).

Section framed_text.
Variable R : graph -> Prop.
Hypothesis R_gb_node : forall ct, keeps R (gb_node ct).
Hypothesis R_set_input : forall h k v, keeps R (set_input h k v).

Lemma conditioning_fold_typed node others :
  hoare (fun g => ids_wf g /\ R g /\ typed env g (out node 0) CONDITIONING) (conditioning_fold node others)
        (fun r g => ids_wf g /\ R g /\ typed env g (out r 0) CONDITIONING).
Proof.
  revert node. induction others as [|o os IH]; intros node; simpl; [by apply hoare_ret|].
  apply (hoare_pre (fun g => ids_wf g /\ (R g /\ typed env g (out node 0) CONDITIONING))); [|naive_solver].
  alloc n. do 2 frame.
  eapply hoare_weaken; [apply IH| |done]. intros g (Hw & [Hr _] & Hn).
  split; [done|split; [done|by eapply typed_out]].
Qed.
End framed_text.

Lemma encode_segment_class clip s e prompt (R : graph -> Prop) :
  (forall ct, keeps R (gb_node ct)) -> (forall h k v, keeps R (set_input h k v)) ->
  hoare (fun g => ids_wf g /\ R g) (encode_segment clip s e prompt)
        (fun ts g => ids_wf g /\ R g /\ class_of g ts = Some "ConditioningSetTimestepRange").
Proof.
  intros HRn HRs. unfold encode_segment.
  destruct (get_function prompt "NODE" ["PCTextEncode"; "text"]) as [p cns].
  frame. match goal with a : (string * string)%type |- _ => destruct a as [cn pn] end.
  alloc nd. alloc ts. do 5 frame. apply hoare_ret. intros g (Hw & [Hr _] & Hts). auto.
Qed.

Lemma encode_loop_classes clip sched : forall s (R : graph -> Prop),
  (forall ct, keeps R (gb_node ct)) -> (forall h k v, keeps R (set_input h k v)) ->
  hoare (fun g => ids_wf g /\ R g) (encode_loop clip s sched)
        (fun ts g => ids_wf g /\ R g /\ Forall (fun t => class_of g t = Some "ConditioningSetTimestepRange") ts).
Proof.
  induction sched as [|[e p] sched IH]; intros s R HRn HRs; simpl; [apply hoare_ret; naive_solver|].
  apply (hoare_bind _ (fun ts g => ids_wf g /\ R g /\ class_of g ts = Some "ConditioningSetTimestepRange"));
    [by apply encode_segment_class|intros ts].
  apply (hoare_bind _ (fun tss g => ids_wf g /\ (R g /\ class_of g ts = Some "ConditioningSetTimestepRange") /\
                         Forall (fun t => class_of g t = Some "ConditioningSetTimestepRange") tss)).
  - apply IH; intros; kept.
  - intros tss. apply hoare_ret. intros g (Hw & [Hr Ht] & Hts). split; [done|split; [done|by constructor]].
Qed.

Lemma encode_schedule_typed clip sched :
  hoare ids_wf (encode_schedule clip sched) (fun r g => ids_wf g /\ typed env g r CONDITIONING).
Proof.
  unfold encode_schedule.
  apply (hoare_bind _ (fun ts g => ids_wf g /\ True /\
                         Forall (fun t => class_of g t = Some "ConditioningSetTimestepRange") ts)).
  { eapply hoare_pre; [apply (encode_loop_classes _ _ _ (fun _ => True)); intros; kept|naive_solver]. }
  intros ts. unfold py_index. destruct (ts !! 0) as [t0|] eqn:Et; [|apply hoare_bind_raise].
  apply hoare_bind_ret.
  apply (hoare_bind _ (fun r g => ids_wf g /\ True /\ typed env g (out r 0) CONDITIONING)).
  - eapply hoare_pre; [apply conditioning_fold_typed; intros; kept|].
    intros g (Hw & _ & Hts). split; [done|split; [done|]].
    apply (typed_out _ _ _ "ConditioningSetTimestepRange"); [exact (Forall_lookup_1 _ _ _ _ Hts Et)|done].
  - intros r. apply hoare_ret. naive_solver.
Qed.
End text_typing.

(** C15: [PCLazyTextEncode.apply]'s [(node.out(0),)] has the type
    [RETURN_TYPES = ("CONDITIONING",)]: it is the output of a range or a
    combine node, whatever class a [NODE(...)] annotation selects for the
    content nodes. *)
Theorem text_apply_typed `{FunctionExtractor} `{ScheduleSource} clip text unique_id r exp :
  LazyTextEncode.apply clip text unique_id = inr (r, exp) ->
  exists g, finalize g = exp /\ Forall2 (returns_ok [(clip, CLIP)] g) [r] (return_types PCLazyTextEncode).
Proof.
  unfold LazyTextEncode.apply. destruct (text_segments text) as [|sched]; [done|]. destruct (LazyTextEncode.encode_schedule _ _ _) as [|[r' g]] eqn:E; [done|].
  intros [= <- <-]. exists g. split; [done|].
  destruct (encode_schedule_typed [(clip, CLIP)] _ _ _ _ _ (ids_wf_new_graph _) E) as [_ Hr].
  constructor; [by left|constructor].
Qed.

(** * Instances at concrete inputs *)

Lemma lora_apply_typed_witness :
  exists m c r exp, @LazyLoraLoader.apply any_file two_halves (VExt "m" 0) (VExt "c" 0) "t" true "7" = inr (m, c, r, exp) /\
    exists g, finalize g = exp /\
      Forall2 (returns_ok [(VExt "m" 0, MODEL); (VExt "c" 0, CLIP)] g) [m; c; r] (return_types PCLazyLoraLoader).
Proof.
  destruct (@LazyLoraLoader.apply any_file two_halves (VExt "m" 0) (VExt "c" 0) "t" true "7")
    as [|[[[m c] r] exp]] eqn:E; [vm_compute in E; discriminate|].
  exists m, c, r, exp. split; [done|].
  exact (@lora_apply_typed any_file two_halves (VExt "m" 0) (VExt "c" 0) "t" true "7" m c r exp E).
Defined.

Lemma text_apply_typed_witness :
  exists r exp, @LazyTextEncode.apply no_annotation two_halves (VExt "c" 0) "t" "7" = inr (r, exp) /\
    exists g, finalize g = exp /\ Forall2 (returns_ok [(VExt "c" 0, CLIP)] g) [r] (return_types PCLazyTextEncode).
Proof.
  destruct (@LazyTextEncode.apply no_annotation two_halves (VExt "c" 0) "t" "7") as [|[r exp]] eqn:E;
    [vm_compute in E; discriminate|].
  exists r, exp. split; [done|].
  exact (@text_apply_typed no_annotation two_halves (VExt "c" 0) "t" "7" r exp E).
Defined.

End Registry.
