(* ===== verification/HookOutput.v ===== *)
(** The keyframe chains in the graph [PCLazyLoraLoader.apply] returns.
    [HookChains] shows what the keyframe loop leaves in [hook_nodes]; the
    later steps (the [SetHookKeyframes] wrappers, lines 103-108, the hook
    combination and the clip hooks) only append nodes and write inputs
    a chain does not read, so in the expanded graph every
    [SetHookKeyframes] node names, through its [hook_kf] input, a chain
    that never switches its LoRA off. *)

From stdpp Require Import base list strings decidable sets.
From Stdlib Require Import ZArith.
From S2P Require Import Prelude PyFloat GraphBuilder Keyframes Schedule LazyLoraLoader HookChains.

Local Open Scope list_scope.

Module HookOutput.
Import PyFloat GraphBuilder Keyframes Schedule LazyLoraLoader HookChains.

(** Node [kf] exists and its chain has the compiler's shape. *)
Definition good_kf (g : graph) (kf : nat) : Prop := kf < id_gen g /\ chain_shape (kf_chain g kf).

(** Every [SetHookKeyframes] node names a good chain. *)
Definition hooks_good (g : graph) : Prop :=
  forall n kf sl, n ∈ nodes g -> class_type n = "SetHookKeyframes" ->
    dget "hook_kf" (inputs n) = Some (VLink kf sl) -> good_kf g kf.

Definition no_class (ct : string) (g : graph) : Prop := Forall (fun n => class_type n ≠ ct) (nodes g).

(** The inputs neither the chains nor the wrappers read. *)
Definition frame_key (k : string) : Prop :=
  k ≠ "prev_hook_kf" /\ k ≠ "start_percent" /\ k ≠ "strength_mult" /\ k ≠ "start_pct" /\ k ≠ "hook_kf".

Ltac frame_key := repeat split; discriminate.

(** * Allocation and input writes keep the chains *)

Lemma gb_node_store ct g h g' :
  store_ok g -> gb_node ct g = inr (h, g') -> g' = push (mk_node (id_gen g) ct []) g /\ h = id_gen g.
Proof. intros Hok E. rewrite gb_node_push in E by apply Hok. by injection E as <- <-. Qed.

Lemma store_ok_push ct g : store_ok g -> store_ok (push (mk_node (id_gen g) ct []) g).
Proof.
  intros [Hb Hn Hl]. split.
  - by apply ids_below_push.
  - by apply no_input_push.
  - unfold push. simpl. apply Forall_app. split; [done|]. repeat constructor. by intros ? ?.
Qed.

Lemma kf_chain_push ct g kf :
  store_ok g -> kf < id_gen g -> kf_chain (push (mk_node (id_gen g) ct []) g) kf = kf_chain g kf.
Proof.
  intros [Hb _ Hl] Hk. unfold kf_chain, push. cbn [nodes].
  apply (kf_chain_fuel_app _ _ _ (id_gen g)); [done|repeat constructor; simpl; lia|done|done].
Qed.

Lemma store_ok_set_input h k v g :
  k ≠ "start_pct" -> k ≠ "prev_hook_kf" -> store_ok g ->
  store_ok (mk_graph (prefix g) (update_node h (set_field k v) (nodes g)) (id_gen g)).
Proof.
  intros H1 H2 [Hb Hn Hl]. split.
  - unfold ids_below in *. simpl. apply Forall_fmap. eapply Forall_impl; [exact Hb|]. intros n Hn'. simpl.
    by case_decide.
  - apply (keeps_no_input_set_input _ h k v H1 g tt); [done|reflexivity].
  - unfold prev_links_below in *. simpl. apply Forall_fmap. eapply Forall_impl; [exact Hl|].
    intros n Hn' j sl. simpl. case_decide; [|apply Hn']. rewrite dget_set_field_ne by done. apply Hn'.
Qed.

Lemma good_kf_push ct g kf : store_ok g -> good_kf g kf -> good_kf (push (mk_node (id_gen g) ct []) g) kf.
Proof. intros Hok [Hk Hs]. split; [simpl; lia|]. by rewrite kf_chain_push. Qed.

Lemma good_kf_set_input h k v g kf :
  k ≠ "prev_hook_kf" /\ k ≠ "start_percent" /\ k ≠ "strength_mult" -> good_kf g kf -> good_kf (mk_graph (prefix g) (update_node h (set_field k v) (nodes g)) (id_gen g)) kf.
Proof.
  intros (H1 & H2 & H3) [Hk Hs]. split; [done|]. unfold kf_chain in *. cbn [nodes id_gen].
  by rewrite kf_chain_fuel_set_input.
Qed.

Lemma hooks_good_push ct g : store_ok g -> hooks_good g -> hooks_good (push (mk_node (id_gen g) ct []) g).
Proof.
  intros Hok Hg n kf sl Hn Hc Hk. unfold push in Hn. simpl in Hn.
  apply elem_of_app in Hn as [Hn|Hn]; [apply good_kf_push; [done|by eapply Hg]|].
  apply list_elem_of_singleton in Hn as ->. done.
Qed.

Lemma hooks_good_set_input h k v g :
  frame_key k -> hooks_good g -> hooks_good (mk_graph (prefix g) (update_node h (set_field k v) (nodes g)) (id_gen g)).
Proof.
  intros Hfk Hg n kf sl Hn Hc Hk. simpl in Hn. unfold update_node in Hn.
  apply list_elem_of_fmap in Hn as (n0 & -> & Hn0).
  apply good_kf_set_input; [by destruct Hfk as (? & ? & ? & _)|]. case_decide; [|by eapply Hg].
  apply (Hg n0 kf sl Hn0); [done|]. rewrite <- Hk. symmetry. apply dget_set_field_ne. destruct Hfk as (_ & _ & _ & _ & Hh). congruence.
Qed.

(** * The same facts for builder calls *)

Lemma keeps_store_ok_gb_node ct : keeps store_ok (gb_node ct).
Proof. intros g h g' Hok E. apply gb_node_store in E as [-> _]; [by apply store_ok_push|done]. Qed.

Lemma keeps_store_ok_set_input h k v : k ≠ "start_pct" -> k ≠ "prev_hook_kf" -> keeps store_ok (set_input h k v).
Proof. intros H1 H2 g [] g' Hok [= <-]. by apply store_ok_set_input. Qed.

Lemma keeps_no_class_gb_node ct ct' : ct' ≠ ct -> keeps (no_class ct) (gb_node ct').
Proof.
  intros Hne g h g' Hg. unfold gb_node, no_class in *. destruct (find_node _ _); intros [= <- <-]; [done|].
  simpl. apply Forall_app. split; [done|]. by repeat constructor.
Qed.

Lemma keeps_no_class_set_input ct h k v : keeps (no_class ct) (set_input h k v).
Proof.
  intros g [] g' Hg [= <-]. unfold no_class, update_node in *. simpl. apply Forall_fmap.
  eapply Forall_impl; [exact Hg|]. intros n Hn. simpl. by case_decide.
Qed.

#[export] Hint Resolve keeps_store_ok_gb_node keeps_no_class_set_input : pc.
#[export] Hint Extern 1 (keeps store_ok (set_input _ _ _)) =>
  apply keeps_store_ok_set_input; discriminate : pc.
#[export] Hint Extern 1 (keeps (no_class _) (gb_node _)) =>
  apply keeps_no_class_gb_node; discriminate : pc.

(** The state of the wrapper loop: the store, the wrappers made so far,
    and the entries still to wrap. *)
Definition wrap_state (es : list (nat * nat)) (g : graph) : Prop :=
  (store_ok g /\ hooks_good g) /\ Forall (fun e => good_kf g e.2) es.

Lemma keeps_wrap_state_gb_node es ct : keeps (wrap_state es) (gb_node ct).
Proof.
  intros g h g' [[Hok Hg] Hes] E. apply gb_node_store in E as [-> _]; [|done].
  split; [split; [by apply store_ok_push|by apply hooks_good_push]|].
  eapply Forall_impl; [exact Hes|]. intros e He. by apply good_kf_push.
Qed.

Lemma keeps_wrap_state_set_input es h k v : frame_key k -> keeps (wrap_state es) (set_input h k v).
Proof.
  intros Hk g [] g' [[Hok Hg] Hes] [= <-]. destruct Hk as (H1 & H2 & H3 & H4 & H5).
  split; [split; [by apply store_ok_set_input|apply hooks_good_set_input; [by repeat split|done]]|].
  eapply Forall_impl; [exact Hes|]. intros e He. by apply good_kf_set_input.
Qed.

(** Line 106: [n.set_input("hook_kf", kfs.out(0))] with a good chain. *)
Lemma hoare_set_hook_kf es h kf n :
  hoare (wrap_state ((h, kf) :: es)) (set_input n "hook_kf" (VLink kf 0)) (fun _ => wrap_state es).
Proof.
  intros g [] g' [[Hok Hg] [Hkf Hes]%Forall_cons] [= <-]. simpl in Hkf.
  assert (Hgk : forall kf', good_kf g kf' ->
            good_kf (mk_graph (prefix g) (update_node n (set_field "hook_kf" (VLink kf 0)) (nodes g)) (id_gen g)) kf')
    by (intros; apply good_kf_set_input; [repeat split; discriminate|done]).
  split; [split|].
  - apply store_ok_set_input; [discriminate|discriminate|done].
  - intros m kf' sl Hm Hc Hk. simpl in Hm. unfold update_node in Hm.
    apply list_elem_of_fmap in Hm as (m0 & -> & Hm0). apply Hgk.
    case_decide; [|by eapply Hg]. simpl in Hk. unfold put_input in Hk.
    rewrite dget_dset_eq in Hk. by injection Hk as <- _.
  - eapply Forall_impl; [exact Hes|]. intros e He. by apply Hgk.
Qed.

Lemma wrap_hooks_good es : hoare (wrap_state es) (wrap_hooks es) (fun _ g => store_ok g /\ hooks_good g).
Proof.
  induction es as [|[h kf] es IH]; simpl; [apply hoare_ret; intros g [Hg _]; done|].
  apply hoare_bind_keeps; [apply keeps_wrap_state_gb_node|intros n].
  apply hoare_bind_keeps; [apply keeps_wrap_state_set_input; frame_key|intros _].
  apply (hoare_bind _ (fun _ => wrap_state es)); [apply hoare_set_hook_kf|intros _].
  apply (hoare_bind _ (fun _ g => store_ok g /\ hooks_good g)); [exact IH|intros ns].
  by apply hoare_ret.
Qed.

(** * The whole compiler *)

Section lora_graph.
Context `{LoraResolver}.

Lemma keeps_store_hooks_gb_node ct : keeps (fun g => store_ok g /\ hooks_good g) (gb_node ct).
Proof.
  intros g h g' [Hok Hg] E. apply gb_node_store in E as [-> _]; [|done].
  split; [by apply store_ok_push|by apply hooks_good_push].
Qed.

Lemma keeps_store_hooks_set_input h k v : frame_key k -> keeps (fun g => store_ok g /\ hooks_good g) (set_input h k v).
Proof.
  intros Hk g [] g' [Hok Hg] [= <-]. pose proof Hk as (H1 & H2 & H3 & H4 & H5).
  split; [by apply store_ok_set_input|by apply hooks_good_set_input].
Qed.

#[local] Hint Resolve keeps_store_hooks_gb_node : pc.
#[local] Hint Extern 1 (keeps (fun g => store_ok g /\ hooks_good g) (set_input _ _ _)) =>
  apply keeps_store_hooks_set_input; frame_key : pc.

(** Before the wrappers no node is a [SetHookKeyframes] node. *)
Lemma keeps_no_wrapper_static_loop model clip ns :
  keeps (fun g => store_ok g /\ no_class "SetHookKeyframes" g) (static_loop model clip ns).
Proof. revert model clip. induction ns as [|[l i] ns IH]; intros m c; simpl; keeps_split. Qed.

Lemma keeps_no_wrapper_schedule_loop ns s hn sched :
  keeps (no_class "SetHookKeyframes") (schedule_loop ns s hn sched).
Proof.
  assert (Hstep : forall s e hn l i, keeps (no_class "SetHookKeyframes") (hook_step ns s e hn l i))
    by (intros; unfold hook_step, hook_entry, activation_keyframe, fresh_keyframe; keeps_split).
  revert s hn. induction sched as [|[e ls] rest IH]; intros s hn; simpl; keeps_split.
  revert hn. induction ls as [|[l i] ls IHl]; intros hn; simpl; keeps_split.
Qed.

Lemma keeps_store_hooks_combine_hooks hs : keeps (fun g => store_ok g /\ hooks_good g) (combine_hooks hs).
Proof.
  assert (Hc : forall r hs, keeps (fun g => store_ok g /\ hooks_good g) (combine_loop r hs))
    by (intros r hs'; revert r; induction hs' as [|h hs' IH]; intros r; simpl; keeps_split).
  unfold combine_hooks. keeps_split.
Qed.

Lemma keeps_store_hooks_clip_hooks ah c r : keeps (fun g => store_ok g /\ hooks_good g) (clip_hooks ah c r).
Proof. unfold clip_hooks. keeps_split. Qed.

(** The entries of a table that refines [abs_schedule] name good chains. *)
Lemma table_entries_good g hn ns sched :
  table_refines g hn (fun k => abs_schedule ns 0%Z k None sched) -> Forall (fun e => good_kf g e.2) (dvalues hn).
Proof.
  intros [Hnd HA]. apply Forall_forall. intros [h kf] Hin.
  unfold dvalues in Hin. apply list_elem_of_fmap in Hin as ([k e] & He & Hin). simpl in He. subst e.
  pose proof (dget_NoDup_elem _ _ _ Hnd Hin) as Hk. specialize (HA k). rewrite Hk in HA.
  destruct HA as [Hlt HA]. split; [done|]. by apply (abs_schedule_shape ns sched 0%Z k None).
Qed.

(** From a well-formed store without wrappers, every wrapper the compiler
    makes names a good chain. *)
Lemma lora_graph_hooks_good model clip apply_hooks sched g0 r g :
  store_ok g0 -> no_class "SetHookKeyframes" g0 ->
  lora_graph model clip apply_hooks sched g0 = inr (r, g) -> store_ok g /\ hooks_good g.
Proof.
  intros Hok Hno E. unfold lora_graph in E.
  apply pym_bind_inr_inv in E as ([m1 c1] & g1 & E1 & E).
  destruct (keeps_no_wrapper_static_loop _ _ _ _ _ _ (conj Hok Hno) E1) as [Hok1 Hno1].
  apply pym_bind_inr_inv in E as (hn & g2 & E2 & E).
  destruct (schedule_loop_refines_from (find_nonscheduled_loras sched) sched 0%Z [] g1 _ Hok1
              (table_refines_empty g1)) as (hn' & g2' & E2' & Hok2 & HA).
  rewrite E2 in E2'. injection E2' as <- <-.
  pose proof (keeps_no_wrapper_schedule_loop _ _ _ _ _ _ _ Hno1 E2) as Hno2.
  apply pym_bind_inr_inv in E as (hs & g3 & E3 & E).
  assert (Hw : wrap_state (dvalues hn) g2).
  { split; [split; [done|]|by eapply table_entries_good].
    intros n kf sl Hn Hc. unfold no_class in Hno2. rewrite Forall_forall in Hno2. by apply Hno2 in Hn. }
  pose proof (wrap_hooks_good _ _ _ _ Hw E3) as H3.
  apply pym_bind_inr_inv in E as (res & g4 & E4 & E).
  pose proof (keeps_store_hooks_combine_hooks _ _ _ _ H3 E4) as H4.
  apply pym_bind_inr_inv in E as (c2 & g5 & E5 & E).
  pose proof (keeps_store_hooks_clip_hooks _ _ _ _ _ _ H4 E5) as H5.
  by injection E as _ <-.
Qed.
End lora_graph.

(** C3: In the expanded graph [PCLazyLoraLoader.apply] returns, every
    [SetHookKeyframes] node wraps a keyframe chain that, once it gives its
    LoRA strength 1.0 at some percent, gives 1.0 at every later percent:
    no scheduled LoRA is ever switched off (spec section 4.2, known
    gap). *)
Theorem lora_apply_wrappers_never_off `{LoraResolver} `{ScheduleSource} model clip text apply_hooks unique_id res exp :
  LazyLoraLoader.apply model clip text apply_hooks unique_id = inr (res, exp) ->
  exists g, finalize g = exp /\
    forall n kf sl p q, n ∈ nodes g -> class_type n = "SetHookKeyframes" ->
      dget "hook_kf" (inputs n) = Some (VLink kf sl) -> (0 <= p <= q)%Z ->
      strength_at (kf_chain g kf) p = scale -> strength_at (kf_chain g kf) q = scale.
Proof.
  unfold LazyLoraLoader.apply. destruct (consolidated_loras text) as [|sched]; [done|]. destruct (lora_graph _ _ _ _ _) as [|[r g]] eqn:E; [done|].
  intros [= <- <-]. exists g. split; [done|].
  destruct (lora_graph_hooks_good _ _ _ _ _ _ _ (store_ok_new_graph _) (Forall_nil_2 _) E) as [_ Hg].
  intros n kf sl p q Hn Hc Hk Hpq. apply strength_never_off; [|done]. by eapply Hg.
Qed.

(** * Instances at concrete inputs *)

(** Every text schedules LoRA [a] for the first half of sampling. *)
Definition half_source : ScheduleSource := {|
  text_segments := fun _ => inr [];
  consolidated_loras := fun _ => inr half_sched |}.

Lemma lora_apply_wrappers_never_off_witness :
  exists res exp, @LazyLoraLoader.apply same_file half_source VNone VNone "t" true "7" = inr (res, exp) /\
    exists g, finalize g = exp /\
      forall n kf sl p q, n ∈ nodes g -> class_type n = "SetHookKeyframes" ->
        dget "hook_kf" (inputs n) = Some (VLink kf sl) -> (0 <= p <= q)%Z ->
        strength_at (kf_chain g kf) p = scale -> strength_at (kf_chain g kf) q = scale.
Proof.
  destruct (@LazyLoraLoader.apply same_file half_source VNone VNone "t" true "7") as [|[res exp]] eqn:E;
    [vm_compute in E; discriminate|].
  exists res, exp. split; [done|].
  exact (@lora_apply_wrappers_never_off same_file half_source VNone VNone "t" true "7" res exp E).
Defined.

End HookOutput.
