(* ===== verification/Reachability.v ===== *)
(** Reachability of the nodes of an expanded graph from the values a node
    returns (spec section 4.4: "every node it creates is reachable from
    the declared outputs (no orphan nodes)").  [GraphBuilder.reaches] is
    the inductive relation; [reachable] computes it by a fuelled
    breadth-first closure, and a closure that is closed under input
    links is exactly the reachable set.  With two dynamic LoRAs the LoRA
    compiler leaves the second [SetHookKeyframes] wrapper unreachable:
    it is built and never combined into the result ([hooks[:1]],
    line 112). *)

From stdpp Require Import base list strings decidable sets.
From Stdlib Require Import ZArith.
From S2P Require Import Prelude PyFloat GraphBuilder Schedule LazyTextEncode LazyLoraLoader HookChains HandlerOutput.

Local Open Scope list_scope.

Module Reachability.
Import PyFloat GraphBuilder Schedule LazyLoraLoader HookChains HandlerOutput.

(** * Computing the reachable set *)

Definition link_id (v : value) : option nat :=
  match v with VLink i _ => Some i | _ => None end.

Definition root_ids (roots : list value) : list nat := omap link_id roots.

(** The nodes the inputs of node [j] link to. *)
Definition succs (g : graph) (j : nat) : list nat :=
  match find_node (nodes g) j with
  | Some n => omap (fun kv => link_id kv.2) (inputs n)
  | None => []
  end.

Definition reach_step (g : graph) (seen : list nat) : list nat :=
  remove_dups (seen ++ (seen ≫= succs g)).

Fixpoint reach_fuel (fuel : nat) (g : graph) (seen : list nat) : list nat :=
  match fuel with
  | 0 => seen
  | S f => reach_fuel f g (reach_step g seen)
  end.

(** One step per node suffices for a graph of [length (nodes g)] nodes. *)
Definition reachable (g : graph) (roots : list value) : list nat :=
  reach_fuel (length (nodes g)) g (remove_dups (root_ids roots)).

(** Every input link of a node of [S] stays in [S]. *)
Definition closed (g : graph) (S : list nat) : bool :=
  forallb (fun j => forallb (fun i => bool_decide (i ∈ S)) (succs g j)) S.

(** * Soundness and completeness *)

Lemma elem_of_root_ids roots i : i ∈ root_ids roots <-> exists s, VLink i s ∈ roots.
Proof.
  unfold root_ids. rewrite list_elem_of_omap. split.
  - intros ([] & Hin & Hl); simplify_eq/=; eauto.
  - intros [s Hin]. by exists (VLink i s).
Qed.

Lemma elem_of_succs g j i :
  i ∈ succs g j <-> exists n k s, find_node (nodes g) j = Some n /\ (k, VLink i s) ∈ inputs n.
Proof.
  unfold succs. destruct (find_node (nodes g) j) as [n|]; [|split; [by intros ?%elem_of_nil|naive_solver]].
  rewrite list_elem_of_omap. split.
  - intros ([k []] & Hin & Hl); simplify_eq/=; eauto 10.
  - intros (n' & k & s & [= <-] & Hin). by exists (k, VLink i s).
Qed.

Lemma reach_fuel_sound g roots f : forall seen,
  (forall i, i ∈ seen -> reaches g roots i) -> forall i, i ∈ reach_fuel f g seen -> reaches g roots i.
Proof.
  induction f as [|f IH]; intros seen Hs; [done|]. simpl. apply IH.
  intros i. unfold reach_step. rewrite elem_of_remove_dups, elem_of_app, list_elem_of_bind.
  intros [Hi|(j & Hi & Hj)]; [auto|].
  apply elem_of_succs in Hi as (n & k & s & Hn & Hk). eapply reaches_input; eauto.
Qed.

Lemma reachable_sound g roots i : i ∈ reachable g roots -> reaches g roots i.
Proof.
  apply reach_fuel_sound. intros j Hj%elem_of_remove_dups%elem_of_root_ids.
  destruct Hj as [s Hs]. by eapply reaches_root.
Qed.

Lemma closed_complete g roots S :
  (forall i, i ∈ root_ids roots -> i ∈ S) -> closed g S = true ->
  forall i, reaches g roots i -> i ∈ S.
Proof.
  intros Hr Hc. unfold closed in Hc. rewrite forallb_forall in Hc.
  induction 1 as [i s Hin|i j n k s _ IH Hn Hk].
  - apply Hr, elem_of_root_ids. eauto.
  - specialize (Hc j (proj1 (list_elem_of_In _ _) IH)). rewrite forallb_forall in Hc.
    assert (Hi : In i (succs g j)) by (apply list_elem_of_In, elem_of_succs; eauto 10).
    specialize (Hc i Hi). by apply bool_decide_eq_true in Hc.
Qed.

Lemma reach_fuel_mono g f : forall seen i, i ∈ seen -> i ∈ reach_fuel f g seen.
Proof.
  induction f as [|f IH]; intros seen i Hi; [done|]. simpl. apply IH.
  unfold reach_step. rewrite elem_of_remove_dups, elem_of_app. by left.
Qed.

(** When the computed set is closed, it is exactly the reachable set. *)
Theorem reachable_spec g roots i :
  closed g (reachable g roots) = true -> reaches g roots i <-> i ∈ reachable g roots.
Proof.
  intros Hc. split; [|apply reachable_sound].
  apply (closed_complete _ _ _ ); [|done].
  intros j Hj. apply reach_fuel_mono, elem_of_remove_dups, Hj.
Qed.

(** * The text compiler leaves no orphan *)

Section text_reach.
Context `{FunctionExtractor}.
Import LazyTextEncode.

(** The combine chain: from its last node, the first node it folds,
    every node folded in and every combine node are reached. *)
Lemma combine_chain_reaches G roots prev i others :
  (forall c, c ∈ combine_nodes prev i others -> find_node (nodes G) (nid c) = Some c) ->
  reaches G roots (combine_result prev i others) ->
  reaches G roots prev /\ Forall (reaches G roots) others /\
  Forall (fun c => reaches G roots (nid c)) (combine_nodes prev i others).
Proof.
  revert prev i. induction others as [|o os IH]; intros prev i Hf Hr; simpl in *; [done|].
  destruct (IH i (S i)) as (Hi & Hos & Hcs); [intros c Hc; apply Hf; by right|done|].
  assert (Hc0 := Hf _ (list_elem_of_here _ _)). simpl in Hc0.
  split; [|split; [constructor; [|done]|by constructor]].
  - apply (reaches_input _ _ _ _ _ "conditioning_1" 0 Hi Hc0). simpl. set_solver.
  - apply (reaches_input _ _ _ _ _ "conditioning_2" 0 Hi Hc0). simpl. set_solver.
Qed.

(** Every node of the segments is a range node or the content node a
    range node links to. *)
Lemma text_nodes_shape clip sched : forall i start ns,
  text_nodes clip i start sched = inr ns -> forall n, n ∈ ns ->
  nid n ∈ range_ids i (length sched) \/
  exists r, r ∈ ns /\ nid r ∈ range_ids i (length sched) /\ ("conditioning", VLink (nid n) 0) ∈ inputs r.
Proof.
  induction sched as [|[e prompt] sched IH]; intros i start ns; simpl; [intros [= <-]; set_solver|].
  destruct (get_function _ _ _) as [q cns]. destruct (node_class cns) as [|[cn pn]]; [done|].
  destruct (text_nodes clip (S (S i)) e sched) as [|ns'] eqn:E; [done|]. intros [= <-] n Hn.
  unfold seg_nodes in Hn. simpl in Hn. rewrite !elem_of_cons in Hn.
  destruct Hn as [->|[->|Hn]]; [|left; set_solver|].
  - right. eexists. split; [apply elem_of_cons; right; apply elem_of_cons; left; reflexivity|].
    simpl. split; set_solver.
  - destruct (IH _ _ _ E n Hn) as [Hl|(r & Hr & Hrl & Hc)]; [left; set_solver|].
    right. exists r. set_solver.
Qed.

Lemma encode_schedule_no_orphans clip sched p r g :
  encode_schedule clip sched (new_graph p) = inr (r, g) -> forall n, n ∈ nodes g -> reaches g [r] (nid n).
Proof.
  intros E n Hn.
  destruct (keeps_encode_schedule ids_wf keeps_ids_wf_gb_node keeps_ids_wf_set_input clip sched
              _ _ _ (ids_wf_new_graph p) E) as [Hnd _].
  apply encode_schedule_inv in E as (ns & Hns & Hne & -> & ->).
  destruct sched as [|seg rest]; [done|]. cbn [length drop range_ids] in *.
  assert (Hf : forall c, c ∈ ns ++ combine_nodes 2 (S (2 * S (length rest))) (range_ids 3 (length rest)) ->
                 find_node (ns ++ combine_nodes 2 (S (2 * S (length rest))) (range_ids 3 (length rest))) (nid c) = Some c)
    by (intros c Hc; by apply find_node_NoDup).
  destruct (combine_chain_reaches (mk_graph p (ns ++ combine_nodes 2 (S (2 * S (length rest))) (range_ids 3 (length rest)))
              (S (2 * S (length rest)) + length (range_ids 3 (length rest))))
              [VLink (combine_result 2 (S (2 * S (length rest))) (range_ids 3 (length rest))) 0]
              2 (S (2 * S (length rest))) (range_ids 3 (length rest))) as (H2 & Hos & Hcs).
  { intros c Hc. apply Hf, elem_of_app. by right. }
  { eapply reaches_root. by left. }
  rewrite Forall_forall in Hos. rewrite Forall_forall in Hcs.
  assert (Hrange : forall j, j ∈ 2 :: range_ids 3 (length rest) ->
            reaches (mk_graph p (ns ++ combine_nodes 2 (S (2 * S (length rest))) (range_ids 3 (length rest)))
                       (S (2 * S (length rest)) + length (range_ids 3 (length rest))))
                    [VLink (combine_result 2 (S (2 * S (length rest))) (range_ids 3 (length rest))) 0] j)
    by (intros j [->|Hj]%elem_of_cons; auto).
  simpl in Hn. apply elem_of_app in Hn as [Hn|Hn]; [|by apply Hcs].
  destruct (text_nodes_shape _ _ _ _ _ Hns n Hn) as [Hl|(r & Hr & Hrl & Hc)]; [by apply Hrange|].
  apply (reaches_input _ _ _ (nid r) r "conditioning" 0); [by apply Hrange|apply Hf, elem_of_app; by left|done].
Qed.
End text_reach.

(** C10: Spec section 4.4 for [PCLazyTextEncode.apply]: every node of the
    expanded graph is reached from the returned conditioning through
    input links, so the host executes all of them. *)
Theorem text_apply_no_orphans `{FunctionExtractor} `{ScheduleSource} clip text unique_id r exp :
  LazyTextEncode.apply clip text unique_id = inr (r, exp) ->
  exists g, finalize g = exp /\ forall n, n ∈ nodes g -> reaches g [r] (nid n).
Proof.
  unfold LazyTextEncode.apply. destruct (text_segments text) as [|sched]; [done|]. destruct (LazyTextEncode.encode_schedule _ _ _) as [|[r' g]] eqn:E; [done|].
  intros [= <- <-]. exists g. split; [done|]. by apply (encode_schedule_no_orphans _ _ _ _ _ E).
Qed.

(** * An orphan of the LoRA compiler *)

(** Two LoRAs scheduled for the first half of sampling. *)
Definition two_dynamic : consolidated :=
  [(5000%Z, [("a", mk_info 10000%Z 10000%Z); ("b", mk_info 10000%Z 10000%Z)]); (10000%Z, [])].

(** C2: Counterexample to spec section 4.4: with two dynamic LoRAs the
    compiler builds a [SetHookKeyframes] node (the second LoRA's) that no
    returned value reaches; the second LoRA's hook is built and never
    applied. *)
Theorem lora_graph_orphan_wrapper :
  exists m c r g, @lora_graph same_file VNone VNone true two_dynamic (new_graph "p") = inr ((m, c, r), g) /\
  exists n, n ∈ nodes g /\ class_type n = "SetHookKeyframes" /\ ~ reaches g [m; c; r] (nid n).
Proof.
  destruct (@lora_graph same_file VNone VNone true two_dynamic (new_graph "p")) as [|[[[m c] r] g]] eqn:E;
    [vm_compute in E; discriminate|].
  exists m, c, r, g. split; [done|].
  vm_compute in E. injection E as Hm Hc Hr Hg. subst m c r g.
  match goal with |- exists n, n ∈ nodes ?G /\ _ => destruct (find_node (nodes G) 8) as [n|] eqn:Hn end;
    [|vm_compute in Hn; discriminate].
  exists n. destruct (find_node_elem _ _ _ Hn) as [Hin Hid]. split; [done|].
  split; [vm_compute in Hn; by injection Hn as <-|]. rewrite Hid. intros Hr.
  match type of Hr with reaches ?G ?R _ => apply (closed_complete G R (reachable G R)) in Hr end; [|intros j Hj; apply reach_fuel_mono, elem_of_remove_dups, Hj|vm_compute; reflexivity].
  match type of Hr with _ ∈ ?L => apply (bool_decide_eq_false_1 (8 ∈ L)); [vm_compute; reflexivity|exact Hr] end.
Qed.

(** * Instances at concrete inputs *)

Lemma text_apply_no_orphans_witness :
  exists r exp, @LazyTextEncode.apply no_annotation two_halves (VExt "c" 0) "t" "7" = inr (r, exp) /\
    exists g, finalize g = exp /\ forall n, n ∈ nodes g -> reaches g [r] (nid n).
Proof.
  destruct (@LazyTextEncode.apply no_annotation two_halves (VExt "c" 0) "t" "7") as [|[r exp]] eqn:E;
    [vm_compute in E; discriminate|].
  exists r, exp. split; [done|].
  exact (@text_apply_no_orphans no_annotation two_halves (VExt "c" 0) "t" "7" r exp E).
Defined.

End Reachability.
